(** * MoonTVPlus: address resolution and TVBox subscription parsing

    A shallow embedding of
      - [src/lib/network-utils.ts]   ([getBestAccessURL], [isLocalNetwork]),
      - [src/app/api/tvbox/parse-subscription/route.ts]   ([POST]),
      - the stand-alone [parseTVBoxSubscription] of the TVBox parsing script,
    followed by the properties of the specification that concern them.

    JavaScript values are modelled by [JsVal]; an abrupt completion ([throw])
    is the [Throw] constructor of [completion]; [console] output is collected
    in a list.  A [Promise] returned by an [async] function is identified
    with the completion it settles to. *)

From Stdlib Require Import String Ascii List ZArith Bool Lia Floats Uint63 DecimalString.
Import ListNotations.
Set Warnings "-abstract-large-number".
Open Scope list_scope.
Open Scope string_scope.

(* ================================================================== *)
(** ** JavaScript values and completions *)
(* ================================================================== *)

(** A value as produced by [JSON.parse], plus [undefined] (the result of
    reading an absent property).  Numbers are IEEE-754 doubles.  An object is
    the list of its members in source order; as in [JSON.parse], the last
    member with a given name is the one a property read sees. *)
#[warnings="-register-all"]
Inductive JsVal : Type :=
| JUndefined
| JNull
| JBool (b : bool)
| JNum (f : float)
| JStr (s : string)
| JArr (items : list JsVal)
| JObj (members : list (string * JsVal)).

Inductive ErrorKind : Type := TypeError | SyntaxError | URIError | OtherError.

(** A thrown [Error]: its constructor and its [message]. *)
Record JsError : Type := mkError { err_kind : ErrorKind; err_message : string }.

Inductive completion (A : Type) : Type :=
| Normal (a : A)
| Throw (e : JsError).
Arguments Normal {A} a.
Arguments Throw {A} e.

Definition bind {A B : Type} (c : completion A) (k : A -> completion B) : completion B :=
  match c with
  | Normal a => k a
  | Throw e => Throw e
  end.

Declare Scope js_scope.
Delimit Scope js_scope with js.
Notation "x <- c ;; k" := (bind c (fun x => k))
  (at level 61, c at next level, right associativity) : js_scope.
Open Scope js_scope.

(** [try { body } catch (e) { handler }] *)
Definition try_catch {A : Type} (body : completion A) (handler : JsError -> completion A)
  : completion A :=
  match body with
  | Normal a => Normal a
  | Throw e => handler e
  end.

(** [Array.prototype.map] and [Array.prototype.filter] with a callback that may
    throw: elements are visited left to right and the first exception aborts
    the traversal. *)
Fixpoint array_map {A B : Type} (f : A -> completion B) (l : list A) : completion (list B) :=
  match l with
  | [] => Normal []
  | x :: t => y <- f x ;; ys <- array_map f t ;; Normal (y :: ys)
  end.

Fixpoint array_filter {A : Type} (p : A -> completion bool) (l : list A) : completion (list A) :=
  match l with
  | [] => Normal []
  | x :: t => b <- p x ;; ys <- array_filter p t ;; Normal (if b then x :: ys else ys)
  end.

(** ToBoolean. *)
Definition truthy (v : JsVal) : bool :=
  match v with
  | JUndefined | JNull => false
  | JBool b => b
  | JNum f => negb (PrimFloat.eqb f 0%float) && PrimFloat.eqb f f
  | JStr s => negb (s =? "")
  | JArr _ | JObj _ => true
  end.

(** [a || b] on values (both operands here are free of effects). *)
Definition js_or (a b : JsVal) : JsVal := if truthy a then a else b.

(** [a && b] on values. *)
Definition js_and (a b : JsVal) : JsVal := if truthy a then b else a.

(** [v === 1] *)
Definition strict_eq_one (v : JsVal) : bool :=
  match v with
  | JNum f => PrimFloat.eqb f 1%float
  | _ => false
  end.

(** Member [k] of an object, if it has one: the last member of that name. *)
Fixpoint own_property (members : list (string * JsVal)) (k : string) : option JsVal :=
  match members with
  | [] => None
  | (k', v) :: rest =>
      match own_property rest k with
      | Some later => Some later
      | None => if k' =? k then Some v else None
      end
  end.

Definition cannot_read (k : string) : JsError :=
  mkError TypeError ("Cannot read properties of null or undefined (reading '" ++ k ++ "')").

Definition not_a_function (k : string) : JsError :=
  mkError TypeError (k ++ " is not a function").

(** [v.k] for the property names the handlers read ([url], [sites], [lives],
    [type], [name], [key], [api], [ext], [epg], [ua]): none of them is an
    inherited property of a string, number, boolean or array, so only an
    object can answer with something else than [undefined]; reading a
    property of [null] or [undefined] throws. *)
Definition get (v : JsVal) (k : string) : completion JsVal :=
  match v with
  | JUndefined | JNull => Throw (cannot_read k)
  | JObj members =>
      Normal (match own_property members k with Some x => x | None => JUndefined end)
  | _ => Normal JUndefined
  end.

(** [String.prototype.includes]. *)
Fixpoint starts_with (p s : string) : bool :=
  match p, s with
  | EmptyString, _ => true
  | String a p', String b s' => Ascii.eqb a b && starts_with p' s'
  | String _ _, EmptyString => false
  end.

Fixpoint string_includes (needle hay : string) : bool :=
  starts_with needle hay ||
  match hay with
  | EmptyString => false
  | String _ t => string_includes needle t
  end.

(** [v.includes(needle)] for a string [needle]: the string method on a
    string, the array method (SameValueZero against each element) on an array;
    any other value has no callable [includes]. *)
Definition includes (v : JsVal) (needle : string) : completion bool :=
  match v with
  | JStr s => Normal (string_includes needle s)
  | JArr items =>
      Normal (existsb (fun x => match x with JStr s => s =? needle | _ => false end) items)
  | JUndefined | JNull => Throw (cannot_read "includes")
  | _ => Throw (not_a_function "includes")
  end.

(** The elements of a value on which [.filter] or [.map] is called. *)
Definition as_array (method : string) (v : JsVal) : completion (list JsVal) :=
  match v with
  | JArr items => Normal items
  | JUndefined | JNull => Throw (cannot_read method)
  | _ => Throw (not_a_function method)
  end.

(* ================================================================== *)
(** ** Console output *)
(* ================================================================== *)

Inductive ConsoleLevel : Type := LogLevel | WarnLevel | ErrorLevel.

Definition ConsoleLine : Type := (ConsoleLevel * string)%type.

(** A computation that writes to the console and then completes. *)
Definition Logged (A : Type) : Type := (list ConsoleLine * A)%type.

Definition console_log {A : Type} (msg : string) (rest : Logged A) : Logged A :=
  ((LogLevel, msg) :: fst rest, snd rest).

Definition console_warn {A : Type} (msg : string) (rest : Logged A) : Logged A :=
  ((WarnLevel, msg) :: fst rest, snd rest).

Definition console_error {A : Type} (msg : string) (rest : Logged A) : Logged A :=
  ((ErrorLevel, msg) :: fst rest, snd rest).

Definition returns {A : Type} (a : A) : Logged (completion A) := ([], Normal a).

(* ================================================================== *)
(** ** network-utils.ts *)
(* ================================================================== *)

(** Where the function runs.  On the server ([typeof window === 'undefined'],
    under Node.js, where [process.env] exists) the ambient configuration is
    [process.env.SITE_BASE], a string or [undefined]; in a browser it is
    [window.location.origin], a string. *)
Inductive ExecutionContext : Type :=
| Server (SITE_BASE : option string)
| Browser (location_origin : string).

(** [if (s) ...] for [s : string | undefined]. *)
Definition truthy_string (s : option string) : bool :=
  match s with
  | Some v => negb (v =? "")
  | None => false
  end.

Definition string_value (s : option string) : string :=
  match s with
  | Some v => v
  | None => "undefined"
  end.

Definition DEFAULT_URL : string := "http://localhost:3000".

(** Steps 3 and 4 of [getBestAccessURL], shared by both contexts. *)
Definition clientAddress (ctx : ExecutionContext) (currentOrigin : option string)
  : Logged (completion string) :=
  if truthy_string currentOrigin then
    console_log ("使用客户端地址: " ++ string_value currentOrigin)
      (returns (string_value currentOrigin))
  else
    match ctx with
    | Browser location_origin =>
        console_log ("使用浏览器当前地址: " ++ location_origin)
          (returns location_origin)
    | Server _ =>
        console_warn "无法确定访问地址，使用默认值" (returns DEFAULT_URL)
    end.

Definition getBestAccessURL (ctx : ExecutionContext)
  (currentOrigin : option string) (port : option float) (dbSiteBase : option string)
  : Logged (completion string) :=
  match ctx with
  | Server SITE_BASE =>
      let siteBase := SITE_BASE in
      if truthy_string siteBase then
        console_log ("使用环境变量配置的地址: " ++ string_value siteBase)
          (returns (string_value siteBase))
      else if truthy_string dbSiteBase then
        console_log ("使用数据库配置的地址: " ++ string_value dbSiteBase)
          (returns (string_value dbSiteBase))
      else
        console_log "Docker 环境：使用客户端传来的地址"
          (clientAddress ctx currentOrigin)
  | Browser _ => clientAddress ctx currentOrigin
  end.

(** *** Regular expressions anchored at the start of the input

    The fragment of the regular-expression language that [localPatterns]
    uses: literal characters, character ranges, concatenation and
    alternation, under a leading [^]. *)
Inductive regex : Type :=
| Eps
| Chr (c : ascii)
| Range (lo hi : ascii)
| Cat (r1 r2 : regex)
| Alt (r1 r2 : regex).

Definition in_range (lo hi c : ascii) : bool :=
  (nat_of_ascii lo <=? nat_of_ascii c)%nat && (nat_of_ascii c <=? nat_of_ascii hi)%nat.

(** What is left of the input after each way of matching [r] at its start. *)
Fixpoint residuals (r : regex) (s : string) : list string :=
  match r with
  | Eps => [s]
  | Chr c =>
      match s with
      | String d t => if Ascii.eqb c d then [t] else []
      | EmptyString => []
      end
  | Range lo hi =>
      match s with
      | String d t => if in_range lo hi d then [t] else []
      | EmptyString => []
      end
  | Cat r1 r2 => flat_map (residuals r2) (residuals r1 s)
  | Alt r1 r2 => residuals r1 s ++ residuals r2 s
  end.

(** [/^r/.test(s)] *)
Definition regex_test (r : regex) (s : string) : bool :=
  match residuals r s with
  | [] => false
  | _ :: _ => true
  end.

Fixpoint lit (s : string) : regex :=
  match s with
  | EmptyString => Eps
  | String c t => Cat (Chr c) (lit t)
  end.

(** [/^192\.168\./], [/^10\./], [/^172\.(1[6-9]|2[0-9]|3[0-1])\./] *)
Definition localPatterns : list regex :=
  [ lit "192.168."
  ; lit "10."
  ; Cat (lit "172.")
      (Cat (Alt (Cat (Chr "1") (Range "6" "9"))
             (Alt (Cat (Chr "2") (Range "0" "9"))
                  (Cat (Chr "3") (Range "0" "1"))))
           (Chr "."))
  ].

Definition isLocalNetwork (hostname : string) : bool :=
  if (hostname =? "localhost") || (hostname =? "127.0.0.1") then true
  else existsb (fun pattern => regex_test pattern hostname) localPatterns.

(** The dot-separated components of a host name, and the number that a
    component of decimal digits denotes; used to speak of the octets of a
    dotted-quad address. *)
Fixpoint split_dots (s : string) : list string :=
  match s with
  | EmptyString => [EmptyString]
  | String c t =>
      if Ascii.eqb c "." then EmptyString :: split_dots t
      else match split_dots t with
           | [] => [String c EmptyString]
           | w :: ws => String c w :: ws
           end
  end.

Definition digit_value (c : ascii) : option nat :=
  if in_range "0" "9" c then Some (nat_of_ascii c - 48)%nat else None.

Fixpoint decimal_value_from (acc : nat) (s : string) : option nat :=
  match s with
  | EmptyString => Some acc
  | String c t =>
      match digit_value c with
      | Some d => decimal_value_from (10 * acc + d)%nat t
      | None => None
      end
  end.

Definition decimal_value (s : string) : option nat :=
  match s with
  | EmptyString => None
  | _ => decimal_value_from 0%nat s
  end.

(** Octet [i] (counted from 1) of a dotted address. *)
Definition octet (i : nat) (hostname : string) : option nat :=
  match nth_error (split_dots hostname) (i - 1) with
  | Some w => decimal_value w
  | None => None
  end.

(** The two decimal digits of a number below 100. *)
Definition two_digits (n : nat) : string :=
  String (ascii_of_nat (48 + n / 10)) (String (ascii_of_nat (48 + n mod 10)) EmptyString).

(* ================================================================== *)
(** ** The platform *)
(* ================================================================== *)

(** The built-in functions of the JavaScript runtime that the parser calls
    and that are not modelled by a definition above.  The properties of the
    parser proved below hold whatever these functions do; [reference_platform]
    further down is an executable instance. *)
Class Platform : Type := {
  (** [JSON.parse(text)]; throws a [SyntaxError] on a text that is not JSON. *)
  JSON_parse : string -> completion JsVal;
  (** The class [URL]. *)
  URL : Type;
  (** [new URL(input)]; throws a [TypeError] on an input that is not an
      absolute URL. *)
  new_URL : JsVal -> completion URL;
  (** [url.searchParams.get(name)]; [None] is [null]. *)
  searchParams_get : URL -> string -> option string;
  (** [decodeURIComponent(s)]; throws a [URIError] on a malformed escape. *)
  decodeURIComponent : string -> completion string
}.

(* ================================================================== *)
(** ** The subscription parser *)
(* ================================================================== *)

(** [{ name, key, api, detail }] *)
Record ParsedSite : Type := mkSite {
  site_name : JsVal;
  site_key : JsVal;
  site_api : JsVal;
  site_detail : JsVal
}.

(** [{ name, url, epg, ua }] *)
Record ParsedLive : Type := mkLive {
  live_name : JsVal;
  live_url : JsVal;
  live_epg : JsVal;
  live_ua : JsVal
}.

Definition PROXY_MARKER : string := "/api/cms-proxy?api=".

Section Parser.
Context {platform : Platform}.

(** [if (originalApi)] for [originalApi : string | null]. *)
Definition truthy_param (originalApi : option string) : bool := truthy_string originalApi.

(** *** route.ts, lines 55-82: [parsedSites] *)
Definition parsedSites (subscriptionData : JsVal) : completion (list ParsedSite) :=
  s <- get subscriptionData "sites" ;;
  let sites := js_or s (JArr []) in
  items <- as_array "filter" sites ;;
  kept <- array_filter (fun site => t <- get site "type" ;; Normal (strict_eq_one t)) items ;;
  mapped <- array_map (fun site =>
      a <- get site "api" ;;
      let apiUrl := js_or a (JStr "") in
      proxied <- includes apiUrl PROXY_MARKER ;;
      apiUrl <- (if proxied then
                   try_catch
                     (urlObj <- new_URL apiUrl ;;
                      let originalApi := searchParams_get urlObj "api" in
                      if truthy_param originalApi then
                        decoded <- decodeURIComponent (string_value originalApi) ;;
                        Normal (JStr decoded)
                      else Normal apiUrl)
                     (fun e => Normal apiUrl)
                 else Normal apiUrl) ;;
      n <- get site "name" ;;
      k <- get site "key" ;;
      x <- get site "ext" ;;
      Normal {| site_name := js_or n (JStr "");
                site_key := js_or k (JStr "");
                site_api := apiUrl;
                site_detail := js_or x (JStr "") |}) kept ;;
  array_filter (fun site => Normal (truthy (js_and (site_api site) (site_name site)))) mapped.

(** *** route.ts, lines 85-91: [parsedLives] *)
Definition parsedLives (subscriptionData : JsVal) : completion (list ParsedLive) :=
  l <- get subscriptionData "lives" ;;
  let lives := js_or l (JArr []) in
  items <- as_array "map" lives ;;
  mapped <- array_map (fun live =>
      n <- get live "name" ;;
      u <- get live "url" ;;
      g <- get live "epg" ;;
      a <- get live "ua" ;;
      Normal {| live_name := js_or n (JStr "");
                live_url := js_or u (JStr "");
                live_epg := js_or g (JStr "");
                live_ua := js_or a (JStr "") |}) items ;;
  array_filter (fun live => Normal (truthy (js_and (live_url live) (live_name live)))) mapped.

(** *** The TVBox parsing script: [parseTVBoxSubscription] *)
Definition parseTVBoxSubscription (data : JsVal) : completion (list ParsedSite) :=
  s <- get data "sites" ;;
  let sites := js_or s (JArr []) in
  items <- as_array "filter" sites ;;
  kept <- array_filter (fun site => t <- get site "type" ;; Normal (strict_eq_one t)) items ;;
  mapped <- array_map (fun site =>
      a <- get site "api" ;;
      let apiUrl := js_or a (JStr "") in
      proxied <- includes apiUrl PROXY_MARKER ;;
      apiUrl <- (if proxied then
                   try_catch
                     (urlObj <- new_URL apiUrl ;;
                      let originalApi := searchParams_get urlObj "api" in
                      if truthy_param originalApi then
                        decoded <- decodeURIComponent (string_value originalApi) ;;
                        Normal (JStr decoded)
                      else Normal apiUrl)
                     (fun e => Normal apiUrl)
                 else Normal apiUrl) ;;
      n <- get site "name" ;;
      k <- get site "key" ;;
      x <- get site "ext" ;;
      Normal {| site_name := js_or n (JStr "");
                site_key := js_or k (JStr "");
                site_api := apiUrl;
                site_detail := js_or x (JStr "") |}) kept ;;
  let parsedSites := array_filter
      (fun site => Normal (truthy (js_and (site_api site) (site_name site)))) mapped in
  parsedSites.

(** *** route.ts: the handler *)

(** What [fetch] resolves to, as far as the handler looks at it. *)
Record FetchResponse : Type := mkFetchResponse {
  status : Z;
  statusText : string;
  content_type : option string;   (* [headers.get('content-type')] *)
  body : string                   (* [text()]; [json()] is [JSON.parse] of it *)
}.

(** [response.ok] *)
Definition ok (response : FetchResponse) : bool :=
  (200 <=? status response)%Z && (status response <=? 299)%Z.

(** The request: the text of its body, which [request.json()] parses. *)
Record NextRequest : Type := mkRequest { request_body : string }.

(** [NextResponse.json(payload, { status })] *)
Record NextResponse : Type := mkResponse { response_status : Z; payload : JsVal }.

Definition number_of_nat (n : nat) : float := PrimFloat.of_uint63 (Uint63.of_Z (Z.of_nat n)).

Definition string_of_Z (z : Z) : string := NilZero.string_of_int (Z.to_int z).

Definition site_object (p : ParsedSite) : JsVal :=
  JObj [("name", site_name p); ("key", site_key p); ("api", site_api p);
        ("detail", site_detail p)].

Definition live_object (p : ParsedLive) : JsVal :=
  JObj [("name", live_name p); ("url", live_url p); ("epg", live_epg p);
        ("ua", live_ua p)].

Definition missing_url_response : NextResponse :=
  mkResponse 400 (JObj [("error", JStr "请提供订阅链接")]).

Definition fetch_failed_response (response : FetchResponse) : NextResponse :=
  mkResponse 400
    (JObj [("error", JStr ("获取订阅失败: " ++ string_of_Z (status response) ++ " "
                            ++ statusText response))]).

Definition invalid_json_response : NextResponse :=
  mkResponse 400 (JObj [("error", JStr "订阅内容不是有效的JSON格式")]).

Definition success_response (sites : list ParsedSite) (lives : list ParsedLive)
  : NextResponse :=
  mkResponse 200
    (JObj [("success", JBool true);
           ("data", JObj [("sites", JArr (map site_object sites));
                          ("lives", JArr (map live_object lives));
                          ("totalSites", JNum (number_of_nat (length sites)));
                          ("totalLives", JNum (number_of_nat (length lives)))])]).

Definition internal_error_response (error : JsError) : NextResponse :=
  mkResponse 500
    (JObj [("error", JStr "解析订阅失败"); ("details", JStr (err_message error))]).

(** [const { url } = await request.json()] *)
Definition request_url (request : NextRequest) : completion JsVal :=
  json <- JSON_parse (request_body request) ;;
  get json "url".

(** [response.headers.get('content-type') || ''] *)
Definition contentType (response : FetchResponse) : string :=
  if truthy_string (content_type response) then string_value (content_type response)
  else "".

(** [fetch(url, ...)]: the network, seen from the handler. *)
Variable fetch : JsVal -> completion FetchResponse.

(** The body of the handler's [try] block.  [inr r] is an early
    [return r] from inside the inner [try]. *)
Definition POST_try (request : NextRequest) : completion NextResponse :=
  url <- request_url request ;;
  if negb (truthy url) then Normal missing_url_response
  else
    response <- fetch url ;;
    if negb (ok response) then Normal (fetch_failed_response response)
    else
      parsed <- (if string_includes "application/json" (contentType response) then
                   subscriptionData <- JSON_parse (body response) ;;
                   Normal (inl subscriptionData)
                 else
                   let text := body response in
                   try_catch
                     (subscriptionData <- JSON_parse text ;; Normal (inl subscriptionData))
                     (fun e => Normal (inr invalid_json_response))) ;;
      match parsed with
      | inr early => Normal early
      | inl subscriptionData =>
          sites <- parsedSites subscriptionData ;;
          lives <- parsedLives subscriptionData ;;
          Normal (success_response sites lives)
      end.

Definition POST (request : NextRequest) : Logged NextResponse :=
  match POST_try request with
  | Normal response => ([], response)
  | Throw error =>
      console_error ("解析订阅失败: " ++ err_message error)
        ([], internal_error_response error)
  end.

End Parser.

(* ================================================================== *)
(** ** A reference platform *)
(* ================================================================== *)

(** An executable model of the built-in functions of [Platform], on strings
    of bytes (a JavaScript string is represented by its UTF-8 encoding).  It
    is used to run the parser on concrete documents. *)

Definition is_digit (c : ascii) : bool := in_range "0" "9" c.

Definition is_alpha (c : ascii) : bool := in_range "a" "z" c || in_range "A" "Z" c.

Definition hex_value (c : ascii) : option nat :=
  if is_digit c then Some (nat_of_ascii c - 48)%nat
  else if in_range "a" "f" c then Some (nat_of_ascii c - 87)%nat
  else if in_range "A" "F" c then Some (nat_of_ascii c - 55)%nat
  else None.

Definition hex_digit (n : nat) : ascii :=
  nth n ["0"; "1"; "2"; "3"; "4"; "5"; "6"; "7"; "8"; "9"; "A"; "B"; "C"; "D"; "E"; "F"]%char
      "0"%char.

Definition to_lower (c : ascii) : ascii :=
  if in_range "A" "Z" c then ascii_of_nat (nat_of_ascii c + 32) else c.

Fixpoint lower_case (s : string) : string :=
  match s with
  | EmptyString => EmptyString
  | String c t => String (to_lower c) (lower_case t)
  end.

Definition one_of (cs : list ascii) (c : ascii) : bool := existsb (Ascii.eqb c) cs.

(** The double quote character. *)
Definition double_quote : ascii := ascii_of_nat 34.

(** *** [encodeURIComponent] and [decodeURIComponent] (ECMA-262, 19.2.6) *)

Definition uri_unreserved (c : ascii) : bool :=
  is_alpha c || is_digit c || one_of ["-"; "_"; "."; "!"; "~"; "*"; "'"; "("; ")"]%char c.

Definition percent_escape (c : ascii) : string :=
  String "%" (String (hex_digit (nat_of_ascii c / 16))
             (String (hex_digit (nat_of_ascii c mod 16)) EmptyString)).

Fixpoint encodeURIComponent_ref (s : string) : string :=
  match s with
  | EmptyString => EmptyString
  | String c t =>
      if uri_unreserved c then String c (encodeURIComponent_ref t)
      else percent_escape c ++ encodeURIComponent_ref t
  end.

Inductive uri_token : Type :=
| Plain (c : ascii)
| Escape (byte : nat)
| BadEscape.

(** The input cut into plain characters and [%XX] escapes, up to the first
    [%] that is not followed by two hexadecimal digits. *)
Fixpoint uri_tokens (s : string) : list uri_token :=
  match s with
  | EmptyString => []
  | String c t =>
      if Ascii.eqb c "%" then
        match t with
        | String h (String l t') =>
            match hex_value h, hex_value l with
            | Some a, Some b => Escape (16 * a + b) :: uri_tokens t'
            | _, _ => [BadEscape]
            end
        | _ => [BadEscape]
        end
      else Plain c :: uri_tokens t
  end.

(** The number of continuation bytes that a leading byte announces. *)
Definition utf8_continuations (b : nat) : option nat :=
  if (b <? 128)%nat then Some 0%nat
  else if (b <? 192)%nat then None
  else if (b <? 224)%nat then Some 1%nat
  else if (b <? 240)%nat then Some 2%nat
  else if (b <? 248)%nat then Some 3%nat
  else None.

(** Whether the bytes are the UTF-8 encoding of one code point (neither
    overlong, nor a surrogate, nor above U+10FFFF). *)
Definition utf8_code_point (bytes : list nat) : bool :=
  match bytes with
  | [b0] => (b0 <? 128)%nat
  | [b0; _] => (194 <=? b0)%nat
  | [b0; b1; _] =>
      if (b0 =? 224)%nat then (160 <=? b1)%nat
      else if (b0 =? 237)%nat then (b1 <=? 159)%nat
      else true
  | [b0; b1; _; _] =>
      if (b0 =? 240)%nat then (144 <=? b1)%nat
      else if (b0 =? 244)%nat then (b1 <=? 143)%nat
      else (b0 <? 244)%nat
  | _ => false
  end.

Definition string_of_bytes (bytes : list nat) : string :=
  fold_right (fun b s => String (ascii_of_nat b) s) EmptyString bytes.

Definition malformed_uri : JsError := mkError URIError "URI malformed".

(** [pending] are the bytes of the escape sequence being read and [need] the
    number of continuation bytes still expected. *)
Fixpoint decode_tokens (ts : list uri_token) (pending : list nat) (need : nat)
  : completion string :=
  match ts with
  | [] => if (need =? 0)%nat then Normal EmptyString else Throw malformed_uri
  | BadEscape :: _ => Throw malformed_uri
  | Plain c :: rest =>
      if (need =? 0)%nat then
        decoded <- decode_tokens rest [] 0%nat ;; Normal (String c decoded)
      else Throw malformed_uri
  | Escape b :: rest =>
      if (need =? 0)%nat then
        match utf8_continuations b with
        | Some 0%nat =>
            decoded <- decode_tokens rest [] 0%nat ;;
            Normal (String (ascii_of_nat b) decoded)
        | Some n => decode_tokens rest [b] n
        | None => Throw malformed_uri
        end
      else if (128 <=? b)%nat && (b <=? 191)%nat then
        if (need =? 1)%nat then
          if utf8_code_point (pending ++ [b])%list then
            decoded <- decode_tokens rest [] 0%nat ;;
            Normal (string_of_bytes (pending ++ [b])%list ++ decoded)
          else Throw malformed_uri
        else decode_tokens rest (pending ++ [b])%list (need - 1)%nat
      else Throw malformed_uri
  end.

Definition decodeURIComponent_ref (s : string) : completion string :=
  decode_tokens (uri_tokens s) [] 0%nat.

(** *** [URL] (WHATWG URL Standard)

    The model keeps the components that the parser reads.  It covers the
    removal of surrounding control characters and of tabs and newlines, the
    scheme, the authority of a special scheme (credentials, host, port), and
    the query and fragment delimiters.  Of the host syntax it checks that the
    host of [http], [https], [ws], [wss] and [ftp] is not empty and has no
    forbidden character, and that the port is a number below 65536; it does
    not parse IPv4 or IPv6 literals, does not percent-decode the host and
    does not apply IDNA. *)
Record RefURL : Type := mkURL {
  url_scheme : string;
  url_host : string;
  url_path : string;
  url_query : option string;
  url_fragment : option string
}.

Definition invalid_url : JsError := mkError TypeError "Invalid URL".

Definition c0_or_space (c : ascii) : bool := (nat_of_ascii c <=? 32)%nat.

Fixpoint drop_while (p : ascii -> bool) (s : string) : string :=
  match s with
  | EmptyString => EmptyString
  | String c t => if p c then drop_while p t else s
  end.

Fixpoint reverse_onto (s acc : string) : string :=
  match s with
  | EmptyString => acc
  | String c t => reverse_onto t (String c acc)
  end.

Definition reverse (s : string) : string := reverse_onto s EmptyString.

Definition trim (p : ascii -> bool) (s : string) : string :=
  reverse (drop_while p (reverse (drop_while p s))).

Fixpoint remove (p : ascii -> bool) (s : string) : string :=
  match s with
  | EmptyString => EmptyString
  | String c t => if p c then remove p t else String c (remove p t)
  end.

(** The input up to the first character satisfying [p], and what follows
    that character, if there is one. *)
Fixpoint split_first (p : ascii -> bool) (s : string) : string * option string :=
  match s with
  | EmptyString => (EmptyString, None)
  | String c t =>
      if p c then (EmptyString, Some t)
      else let (before, after) := split_first p t in (String c before, after)
  end.

(** The same for the last such character. *)
Definition split_last (p : ascii -> bool) (s : string) : option string * string :=
  let (after, before) := split_first p (reverse s) in
  (option_map reverse before, reverse after).

Fixpoint all_chars (p : ascii -> bool) (s : string) : bool :=
  match s with
  | EmptyString => true
  | String c t => p c && all_chars p t
  end.

Definition scheme_char (c : ascii) : bool :=
  is_alpha c || is_digit c || one_of ["+"; "-"; "."]%char c.

Definition special_scheme (scheme : string) : bool :=
  existsb (String.eqb scheme) ["http"; "https"; "ws"; "wss"; "ftp"; "file"].

Definition forbidden_host_char (c : ascii) : bool :=
  c0_or_space c || (nat_of_ascii c =? 127)%nat
  || one_of ["#"; "/"; ":"; "<"; ">"; "?"; "@"; "["; "\"; "]"; "^"; "|"]%char c.

Definition valid_port (port : string) : bool :=
  all_chars is_digit port &&
  match decimal_value_from 0%nat (drop_while (Ascii.eqb "0") port) with
  | Some n => (String.length (drop_while (Ascii.eqb "0") port) <=? 5)%nat
              && (Z.of_nat n <? 65536)%Z
  | None => false
  end.

Definition is_slash (c : ascii) : bool := one_of ["/"; "\"]%char c.

(** The input without the characters that the parser drops first: control
    characters and spaces at both ends, tabs and newlines everywhere. *)
Definition url_input (input : string) : string :=
  remove (one_of [ascii_of_nat 9; ascii_of_nat 10; ascii_of_nat 13])
    (trim c0_or_space input).

(** The scheme, in lower case, and what follows its colon. *)
Definition url_split_scheme (input : string) : option (string * string) :=
  match split_first (fun c => negb (scheme_char c)) input with
  | (String c0 scheme', Some _) =>
      match drop_while scheme_char input with
      | String ":" rest =>
          if is_alpha c0 then Some (lower_case (String c0 scheme'), rest) else None
      | _ => None
      end
  | _ => None
  end.

(** What precedes the first [?] or [#], the query and the fragment. *)
Definition url_split_query (rest : string) : string * option string * option string :=
  let (before_fragment, fragment) := split_first (Ascii.eqb "#") rest in
  let (hier, query) := split_first (Ascii.eqb "?") before_fragment in
  (hier, query, fragment).

(** The host and the path of a URL with a special scheme. *)
Definition url_authority (scheme hier : string) : completion (string * string) :=
  let hier := drop_while is_slash hier in
  let (authority, path) := split_first is_slash hier in
  let (_, hostport) := split_last (Ascii.eqb "@") authority in
  let (host, port) :=
    match split_last (Ascii.eqb ":") hostport with
    | (Some h, p) => (h, p)
    | (None, h) => (h, EmptyString)
    end in
  if (scheme =? "file") then Normal (authority, string_value path)
  else if (host =? "") || negb (all_chars (fun c => negb (forbidden_host_char c)) host)
          || negb (valid_port port)
  then Throw invalid_url
  else Normal (lower_case host, String "/" (match path with Some p => p | None => "" end)).

(** The URL parser with no base URL, applied to a string. *)
Definition parse_url (input : string) : completion RefURL :=
  match url_split_scheme (url_input input) with
  | None => Throw invalid_url
  | Some (scheme, rest) =>
      let '(hier, query, fragment) := url_split_query rest in
      if special_scheme scheme then
        hostpath <- url_authority scheme hier ;;
        Normal (mkURL scheme (fst hostpath) (snd hostpath) query fragment)
      else Normal (mkURL scheme EmptyString hier query fragment)
  end.

(** *** [URLSearchParams]: the [application/x-www-form-urlencoded] parser *)

Fixpoint plus_to_space (s : string) : string :=
  match s with
  | EmptyString => EmptyString
  | String c t => String (if Ascii.eqb c "+" then " "%char else c) (plus_to_space t)
  end.

(** Percent-decoding: a [%] that starts no escape is kept. *)
Fixpoint percent_decode (s : string) : string :=
  match s with
  | EmptyString => EmptyString
  | String c t =>
      if Ascii.eqb c "%" then
        match t with
        | String h (String l t') =>
            match hex_value h, hex_value l with
            | Some a, Some b => String (ascii_of_nat (16 * a + b)) (percent_decode t')
            | _, _ => String "%" (percent_decode t)
            end
        | _ => String "%" (percent_decode t)
        end
      else String c (percent_decode t)
  end.

(** The sequences between [&]. *)
Fixpoint split_ampersand (s : string) : list string :=
  match s with
  | EmptyString => [EmptyString]
  | String c t =>
      if Ascii.eqb c "&" then EmptyString :: split_ampersand t
      else match split_ampersand t with
           | [] => [String c EmptyString]
           | w :: ws => String c w :: ws
           end
  end.

Definition form_pair (sequence : string) : string * string :=
  let (name, value) := split_first (Ascii.eqb "=") sequence in
  (percent_decode (plus_to_space name),
   percent_decode (plus_to_space (match value with Some v => v | None => EmptyString end))).

(** The name-value pairs of a query.  The URL parser percent-encodes some
    characters of the query before the pairs are read from it and
    [percent_decode] undoes exactly that, so the pairs are read from the
    query as written. *)
Definition form_pairs (query : string) : list (string * string) :=
  map form_pair (filter (fun sequence => negb (sequence =? "")) (split_ampersand query)).

(** [searchParams.get(name)]: the value of the first pair of that name. *)
Definition searchParams_get_ref (url : RefURL) (name : string) : option string :=
  match url_query url with
  | None => None
  | Some query =>
      option_map snd (find (fun pair => fst pair =? name) (form_pairs query))
  end.

(** *** Numbers *)

Definition float_of_Z_scaled (m e : Z) : float :=
  SF2Prim (binary_normalize prec emax m e false).

(** The double nearest to [m * 10^e10] (for [negative], its opposite).  A
    negative power of ten is divided out exactly, with a sticky bit below
    the 64 leading bits of the quotient. *)
Definition float_of_decimal (negative : bool) (m e10 : Z) : float :=
  let magnitude :=
    if (m =? 0)%Z then 0%float
    else if (400 <? e10)%Z then infinity
    else if (e10 <? -800)%Z then 0%float
    else if (0 <=? e10)%Z then float_of_Z_scaled (m * 10 ^ e10) 0
    else
      let d := (10 ^ (- e10))%Z in
      let s := Z.max 0 (64 + Z.log2 d - Z.log2 m) in
      let q := (m * 2 ^ s / d)%Z in
      let sticky := if (m * 2 ^ s mod d =? 0)%Z then 0%Z else 1%Z in
      float_of_Z_scaled (2 * q + sticky) (- s - 1) in
  if negative then (- magnitude)%float else magnitude.

Definition digit_count (z : Z) : Z := Z.of_nat (String.length (string_of_Z z)).

(** Number::toString, step 5: for a positive finite [x] that is exactly
    [exact * 10^(-p)], the integers [s] and [n] such that [s] has as few
    digits [k] as possible, [s * 10^(n-k)] rounds to [x] and, among these,
    is closest to [x]. *)
Definition shortest_digits (x : float) (exact p : Z) : Z * Z :=
  let L := digit_count exact in
  let round_trips (s scale : Z) := PrimFloat.eqb (float_of_decimal false s (scale - p)) x in
  let candidate (k : Z) : option (Z * Z) :=
    let scale := (L - k)%Z in
    let lo := (exact / 10 ^ scale)%Z in
    let hi := (lo + 1)%Z in
    let below := (exact - lo * 10 ^ scale)%Z in
    let above := (hi * 10 ^ scale - exact)%Z in
    let take_hi := if (hi =? 10 ^ k)%Z then (10 ^ (k - 1), L - p + 1)%Z else (hi, (L - p)%Z) in
    match round_trips lo scale, round_trips hi scale with
    | true, true =>
        if (below <? above)%Z || ((below =? above)%Z && Z.even lo) then Some (lo, (L - p)%Z)
        else Some take_hi
    | true, false => Some (lo, (L - p)%Z)
    | false, true => Some take_hi
    | false, false => None
    end in
  let fix search (ks : list Z) : Z * Z :=
    match ks with
    | [] => (exact, (L - p)%Z)
    | k :: rest =>
        if (L <=? k)%Z then (exact, (L - p)%Z)
        else match candidate k with
             | Some found => found
             | None => search rest
             end
    end in
  search (map Z.of_nat (seq 1 17)).

Fixpoint zeros (n : nat) : string :=
  match n with
  | O => EmptyString
  | S n' => String "0" (zeros n')
  end.

(** Number::toString, steps 6 to 13: the text for the digits [s] and the
    position [n] of the decimal point. *)
Definition format_digits (s n : Z) : string :=
  let digits := string_of_Z s in
  let k := Z.of_nat (String.length digits) in
  if (k <=? n)%Z && (n <=? 21)%Z then String.append digits (zeros (Z.to_nat (n - k)))
  else if (0 <? n)%Z && (n <=? 21)%Z then
    String.append (substring 0 (Z.to_nat n) digits)
      (String "." (substring (Z.to_nat n) (Z.to_nat (k - n)) digits))
  else if (-6 <? n)%Z && (n <=? 0)%Z then
    String.append "0." (String.append (zeros (Z.to_nat (- n))) digits)
  else
    let e := (n - 1)%Z in
    let exponent := String.append (if (e <? 0)%Z then "e-" else "e+") (string_of_Z (Z.abs e)) in
    match digits with
    | String d (String _ _ as more) => String d (String "." (String.append more exponent))
    | _ => String.append digits exponent
    end.

(** ToString of a number (ECMA-262, 6.1.6.1.20). *)
Definition number_to_string (f : float) : string :=
  match Prim2SF f with
  | S754_nan => "NaN"
  | S754_zero _ => "0"
  | S754_infinity negative => if negative then "-Infinity" else "Infinity"
  | S754_finite negative m e =>
      let x := PrimFloat.abs f in
      let (s, n) :=
        if (0 <=? e)%Z then shortest_digits x (Zpos m * 2 ^ e) 0
        else shortest_digits x (Zpos m * 5 ^ (- e)) (- e) in
      String.append (if negative then "-" else "") (format_digits s n)
  end.

(** ToString of a value; the elements of an array are joined by commas and
    [null] and [undefined] elements are empty. *)
Fixpoint to_string (v : JsVal) : string :=
  match v with
  | JUndefined => "undefined"
  | JNull => "null"
  | JBool b => if b then "true" else "false"
  | JNum f => number_to_string f
  | JStr s => s
  | JObj _ => "[object Object]"
  | JArr items =>
      (fix join (l : list JsVal) : string :=
         match l with
         | [] => EmptyString
         | x :: rest =>
             String.append
               (match x with JUndefined | JNull => EmptyString | _ => to_string x end)
               (match rest with [] => EmptyString | _ => String "," (join rest) end)
         end) items
  end.

Definition new_URL_ref (input : JsVal) : completion RefURL := parse_url (to_string input).

(** *** [JSON.parse] (ECMA-404) *)

Definition json_space (c : ascii) : bool :=
  one_of [" "%char; ascii_of_nat 9; ascii_of_nat 10; ascii_of_nat 13] c.

Definition skip_space (s : string) : string := drop_while json_space s.

(** The longest prefix of characters satisfying [p], and the rest. *)
Fixpoint span (p : ascii -> bool) (s : string) : string * string :=
  match s with
  | EmptyString => (EmptyString, EmptyString)
  | String c t =>
      if p c then let (taken, rest) := span p t in (String c taken, rest)
      else (EmptyString, s)
  end.

Definition digits_value (digits : string) : Z :=
  match decimal_value_from 0%nat digits with
  | Some n => Z.of_nat n
  | None => 0%Z
  end.

Fixpoint Z_of_digits (acc : Z) (digits : string) : Z :=
  match digits with
  | EmptyString => acc
  | String c t => Z_of_digits (10 * acc + Z.of_nat (nat_of_ascii c - 48)) t
  end.

(** A number literal at the start of the input. *)
Definition parse_number (s : string) : option (float * string) :=
  let (negative, s) :=
    match s with
    | String "-" t => (true, t)
    | _ => (false, s)
    end in
  let (whole, s) := span is_digit s in
  if (whole =? "") || (starts_with "0" whole && negb (whole =? "0")) then None
  else
    let fraction :=
      match s with
      | String "." t =>
          let (digits, rest) := span is_digit t in
          if digits =? "" then None else Some (digits, rest)
      | _ => Some (EmptyString, s)
      end in
    match fraction with
    | None => None
    | Some (fraction, s) =>
        let exponent :=
          match s with
          | String c t =>
              if one_of ["e"; "E"]%char c then
                let (negative_exponent, t) :=
                  match t with
                  | String "-" t' => (true, t')
                  | String "+" t' => (false, t')
                  | _ => (false, t)
                  end in
                let (digits, rest) := span is_digit t in
                if digits =? "" then None
                else Some (if negative_exponent then (- Z_of_digits 0 digits)%Z
                           else Z_of_digits 0 digits, rest)
              else Some (0%Z, s)
          | EmptyString => Some (0%Z, s)
          end in
        match exponent with
        | None => None
        | Some (exponent, rest) =>
            Some (float_of_decimal negative
                    (Z_of_digits 0 (String.append whole fraction))
                    (exponent - Z.of_nat (String.length fraction)), rest)
        end
    end.

(** The characters of a string literal: bytes of the text, and UTF-16 code
    units written as [\uXXXX]. *)
Inductive string_item : Type :=
| Byte (c : ascii)
| Unit16 (n : nat).

Definition hex4 (a b c d : ascii) : option nat :=
  match hex_value a, hex_value b, hex_value c, hex_value d with
  | Some w, Some x, Some y, Some z => Some (4096 * w + 256 * x + 16 * y + z)%nat
  | _, _, _, _ => None
  end.

Definition simple_escape (c : ascii) : option ascii :=
  if one_of [double_quote; "\"%char; "/"%char] c then Some c
  else if Ascii.eqb c "b" then Some (ascii_of_nat 8)
  else if Ascii.eqb c "f" then Some (ascii_of_nat 12)
  else if Ascii.eqb c "n" then Some (ascii_of_nat 10)
  else if Ascii.eqb c "r" then Some (ascii_of_nat 13)
  else if Ascii.eqb c "t" then Some (ascii_of_nat 9)
  else None.

(** The items of a string literal whose opening quote has been read, and the
    input after its closing quote. *)
Fixpoint string_items (s : string) : option (list string_item * string) :=
  match s with
  | EmptyString => None
  | String c t =>
      if Ascii.eqb c double_quote then Some ([], t)
      else if Ascii.eqb c "\" then
        match t with
        | String "u" (String h1 (String h2 (String h3 (String h4 t')))) =>
            match hex4 h1 h2 h3 h4, string_items t' with
            | Some n, Some (items, rest) => Some (Unit16 n :: items, rest)
            | _, _ => None
            end
        | String e t' =>
            match simple_escape e, string_items t' with
            | Some x, Some (items, rest) => Some (Byte x :: items, rest)
            | _, _ => None
            end
        | EmptyString => None
        end
      else if (nat_of_ascii c <? 32)%nat then None
      else
        match string_items t with
        | Some (items, rest) => Some (Byte c :: items, rest)
        | None => None
        end
  end.

(** The UTF-8 encoding of a code point. *)
Definition utf8_encode (cp : nat) : list nat :=
  if (cp <? 128)%nat then [cp]
  else if (cp <? 2048)%nat then [192 + cp / 64; 128 + cp mod 64]%nat
  else if (Z.of_nat cp <? 65536)%Z then
    [224 + cp / 4096; 128 + (cp / 64) mod 64; 128 + cp mod 64]%nat
  else [240 + cp / 262144; 128 + (cp / 4096) mod 64; 128 + (cp / 64) mod 64;
        128 + cp mod 64]%nat.

Definition high_surrogate (n : nat) : bool := (55296 <=? n)%nat && (n <=? 56319)%nat.
Definition low_surrogate (n : nat) : bool := (56320 <=? n)%nat && (n <=? 57343)%nat.

Fixpoint items_to_string (items : list string_item) : string :=
  match items with
  | [] => EmptyString
  | Byte c :: rest => String c (items_to_string rest)
  | Unit16 hi :: rest =>
      match rest with
      | Unit16 lo :: rest' =>
          if high_surrogate hi && low_surrogate lo then
            String.append
              (string_of_bytes (utf8_encode (65536 + (hi - 55296) * 1024 + (lo - 56320))))
              (items_to_string rest')
          else String.append (string_of_bytes (utf8_encode hi)) (items_to_string rest)
      | _ => String.append (string_of_bytes (utf8_encode hi)) (items_to_string rest)
      end
  end.

Definition parse_string (s : string) : option (string * string) :=
  match string_items s with
  | Some (items, rest) => Some (items_to_string items, rest)
  | None => None
  end.

(** A string literal at the start of the input. *)
Definition quoted_string (s : string) : option (string * string) :=
  match s with
  | String c t => if Ascii.eqb c double_quote then parse_string t else None
  | EmptyString => None
  end.

Definition literal (word : string) (v : JsVal) (s : string) : option (JsVal * string) :=
  if starts_with word s then Some (v, substring (String.length word) (String.length s) s)
  else None.

(** A value at the start of the input, after white space; [fuel] bounds the
    number of nested calls, of which there are at most two for each character
    read. *)
Fixpoint parse_value (fuel : nat) (s : string) : option (JsVal * string) :=
  match fuel with
  | O => None
  | S fuel =>
      match skip_space s with
      | String "{" t =>
          match skip_space t with
          | String "}" rest => Some (JObj [], rest)
          | t => parse_members fuel [] t
          end
      | String "[" t =>
          match skip_space t with
          | String "]" rest => Some (JArr [], rest)
          | t => parse_elements fuel [] t
          end
      | String "t" _ as s => literal "true" (JBool true) s
      | String "f" _ as s => literal "false" (JBool false) s
      | String "n" _ as s => literal "null" JNull s
      | s =>
          match quoted_string s with
          | Some (text, rest) => Some (JStr text, rest)
          | None =>
              match parse_number s with
              | Some (f, rest) => Some (JNum f, rest)
              | None => None
              end
          end
      end
  end

with parse_elements (fuel : nat) (done : list JsVal) (s : string) : option (JsVal * string) :=
  match fuel with
  | O => None
  | S fuel =>
      match parse_value fuel s with
      | Some (v, rest) =>
          match skip_space rest with
          | String "," rest => parse_elements fuel (v :: done) rest
          | String "]" rest => Some (JArr (rev (v :: done)), rest)
          | _ => None
          end
      | None => None
      end
  end

with parse_members (fuel : nat) (done : list (string * JsVal)) (s : string)
  : option (JsVal * string) :=
  match fuel with
  | O => None
  | S fuel =>
      match quoted_string (skip_space s) with
      | Some (name, rest) =>
              match skip_space rest with
              | String ":" rest =>
                  match parse_value fuel rest with
                  | Some (v, rest) =>
                      match skip_space rest with
                      | String "," rest => parse_members fuel ((name, v) :: done) rest
                      | String "}" rest => Some (JObj (rev ((name, v) :: done)), rest)
                      | _ => None
                      end
                  | None => None
                  end
              | _ => None
              end
      | None => None
      end
  end.

Definition not_json : JsError := mkError SyntaxError "Unexpected token in JSON".

Definition JSON_parse_ref (text : string) : completion JsVal :=
  match parse_value (2 * String.length text + 2) text with
  | Some (v, rest) => if skip_space rest =? "" then Normal v else Throw not_json
  | None => Throw not_json
  end.

#[export] Instance reference_platform : Platform := {|
  JSON_parse := JSON_parse_ref;
  URL := RefURL;
  new_URL := new_URL_ref;
  searchParams_get := searchParams_get_ref;
  decodeURIComponent := decodeURIComponent_ref
|}.

(* ================================================================== *)
(** ** Notions used to state the properties *)
(* ================================================================== *)

(** The strings that a regular expression denotes. *)
Inductive matches : regex -> string -> Prop :=
| matches_Eps : matches Eps EmptyString
| matches_Chr (c : ascii) : matches (Chr c) (String c EmptyString)
| matches_Range (lo hi c : ascii) :
    in_range lo hi c = true -> matches (Range lo hi) (String c EmptyString)
| matches_Cat (r1 r2 : regex) (u v : string) :
    matches r1 u -> matches r2 v -> matches (Cat r1 r2) (u ++ v)
| matches_Alt_l (r1 r2 : regex) (u : string) : matches r1 u -> matches (Alt r1 r2) u
| matches_Alt_r (r1 r2 : regex) (u : string) : matches r2 u -> matches (Alt r1 r2) u.

(** [v.k] when [v] is known not to be [null] or [undefined]. *)
Definition field (v : JsVal) (k : string) : JsVal :=
  match get v k with
  | Normal x => x
  | Throw _ => JUndefined
  end.

Definition nullish (v : JsVal) : bool :=
  match v with
  | JUndefined | JNull => true
  | _ => false
  end.

(** The elements of [document.sites] (of [document.lives]), an absent or
    falsy field being an empty sequence. *)
Definition records (document : JsVal) (k : string) : list JsVal :=
  match js_or (field document k) (JArr []) with
  | JArr items => items
  | _ => []
  end.

(** [record.type === 1] *)
Definition type_is_one (record : JsVal) : bool := strict_eq_one (field record "type").

(** The final filters of the two pipelines. *)
Definition site_kept (site : ParsedSite) : bool :=
  truthy (js_and (site_api site) (site_name site)).

Definition live_kept (live : ParsedLive) : bool :=
  truthy (js_and (live_url live) (live_name live)).

(** What the live pipeline emits for a record. *)
Definition to_live (record : JsVal) : ParsedLive :=
  {| live_name := js_or (field record "name") (JStr "");
     live_url := js_or (field record "url") (JStr "");
     live_epg := js_or (field record "epg") (JStr "");
     live_ua := js_or (field record "ua") (JStr "") |}.

(** What the site pipeline emits for a record whose effective [api] is
    [apiUrl]. *)
Definition to_site (record : JsVal) (apiUrl : JsVal) : ParsedSite :=
  {| site_name := js_or (field record "name") (JStr "");
     site_key := js_or (field record "key") (JStr "");
     site_api := apiUrl;
     site_detail := js_or (field record "ext") (JStr "") |}.

Section EffectiveApi.
Context {platform : Platform}.

(** The effective [api] of a site record: lines 60-73 of route.ts, the
    statements of the [map] callback that compute [apiUrl]. *)
Definition effective_api (record : JsVal) : completion JsVal :=
  let apiUrl := js_or (field record "api") (JStr "") in
  proxied <- includes apiUrl PROXY_MARKER ;;
  if proxied then
    try_catch
      (urlObj <- new_URL apiUrl ;;
       let originalApi := searchParams_get urlObj "api" in
       if truthy_param originalApi then
         decoded <- decodeURIComponent (string_value originalApi) ;;
         Normal (JStr decoded)
       else Normal apiUrl)
      (fun e => Normal apiUrl)
  else Normal apiUrl.

(** What the [map] callback of the site pipeline yields for [record]. *)
Definition emitted (record : JsVal) (site : ParsedSite) : Prop :=
  exists apiUrl, effective_api record = Normal apiUrl /\ site = to_site record apiUrl.

End EffectiveApi.

(** The documents and records of the examples. *)
Definition record (members : list (string * JsVal)) : JsVal := JObj members.

Definition site_A : JsVal :=
  record [("type", JNum 1); ("name", JStr "A"); ("api", JStr "http://x"); ("key", JStr "k")].

Definition site_B : JsVal :=
  record [("type", JNum 2); ("name", JStr "B"); ("api", JStr "http://y")].

Definition document_A_B : JsVal := JObj [("sites", JArr [site_A; site_B])].

Definition parsed_A : ParsedSite := mkSite (JStr "A") (JStr "k") (JStr "http://x") (JStr "").

Definition parsed_L : ParsedLive := mkLive (JStr "L") (JStr "http://l") (JStr "") (JStr "").

(** Both fields that the final filter looks at are truthy, and so are not
    the placeholder [''] . *)
Definition site_nonempty (site : ParsedSite) : Prop :=
  truthy (site_name site) = true /\ truthy (site_api site) = true
  /\ site_name site <> JStr "" /\ site_api site <> JStr "".

Definition live_nonempty (live : ParsedLive) : Prop :=
  truthy (live_name live) = true /\ truthy (live_url live) = true
  /\ live_name live <> JStr "" /\ live_url live <> JStr "".

Definition live_L : JsVal := record [("name", JStr "L"); ("url", JStr "http://l")].

Definition site_unnamed : JsVal :=
  record [("type", JNum 1); ("name", JStr ""); ("api", JStr "http://x"); ("key", JStr "k")].

Definition live_proxied : JsVal :=
  record [("name", JStr "P"); ("url", JStr "http://host/api/cms-proxy?api=http%3A%2F%2Fl")].

Definition sites_document (sites : list JsVal) : JsVal := JObj [("sites", JArr sites)].

Definition lives_document (lives : list JsVal) : JsVal := JObj [("lives", JArr lives)].

Definition site_wrapped : JsVal :=
  record [("key", JStr "real"); ("name", JStr "Real"); ("type", JNum 1);
          ("api", JStr "http://host/api/cms-proxy?api=http%3A%2F%2Freal.site%2Fapi")].

(** The JSON texts of the examples are written with ['] for the double
    quote. *)
Fixpoint json_text (s : string) : string :=
  match s with
  | EmptyString => EmptyString
  | String c t => String (if Ascii.eqb c "'" then double_quote else c) (json_text t)
  end.

(** A request that supplies a subscription URL, and two networks: both answer
    200 with a body that is not JSON, one declaring it as HTML and the other
    as JSON. *)
Definition request_with_url : NextRequest :=
  mkRequest (json_text "{'url': 'http://sub.example/tvbox.json'}").

Definition request_without_url : NextRequest := mkRequest "{}".

Definition fetch_html (url : JsVal) : completion FetchResponse :=
  Normal (mkFetchResponse 200 "OK" (Some "text/html") "<html>moved</html>").

Definition fetch_html_declared_json (url : JsVal) : completion FetchResponse :=
  Normal (mkFetchResponse 200 "OK" (Some "application/json; charset=utf-8")
            "<html>moved</html>").

(** A network that serves the document with the records A and B as plain
    text. *)
Definition fetch_A_B (url : JsVal) : completion FetchResponse :=
  Normal (mkFetchResponse 200 "OK" (Some "text/plain")
            (json_text
               "{'sites': [{'type':1, 'name':'A', 'api':'http://x', 'key':'k'},
                           {'type':2, 'name':'B', 'api':'http://y'}],
                 'lives': [{'name':'L', 'url':'http://l'}]}")).

(** An address wrapped for the proxy:
    ["http://host/api/cms-proxy?api=" + encodeURIComponent(original)]. *)
Definition wrap (original : string) : string :=
  "http://host/api/cms-proxy?api=" ++ encodeURIComponent_ref original.

Definition wrapped_api : string := wrap "http://real.site/api".

(** The characters that [encodeURIComponent] leaves or produces are not
    spaces, control characters, [#], [&] or [+]. *)
Definition plain (c : ascii) : bool :=
  negb (c0_or_space c) && negb (one_of ["#"; "&"; "+"]%char c).

Definition not_percent (c : ascii) : bool := negb (Ascii.eqb c "%").

(* ================================================================== *)
(** ** network-utils.ts: the address probes *)
(* ================================================================== *)

(** *** [String.prototype.trim]

    White space and line terminators of ECMA-262 (11.2, 11.3), in their UTF-8
    encodings: U+0009 to U+000D, U+0020, U+00A0, U+1680, U+2000 to U+200A,
    U+2028, U+2029, U+202F, U+205F, U+3000 and U+FEFF. *)
Definition space1 (c : ascii) : bool :=
  in_range (ascii_of_nat 9) (ascii_of_nat 13) c || Ascii.eqb c " ".

Definition space2 (c d : ascii) : bool :=
  (nat_of_ascii c =? 194)%nat && (nat_of_ascii d =? 160)%nat.

Definition space3 (c d e : ascii) : bool :=
  let c := nat_of_ascii c in
  let d := nat_of_ascii d in
  let e := nat_of_ascii e in
  ((c =? 225) && (d =? 154) && (e =? 128)
   || (c =? 226) && (d =? 128)
      && ((128 <=? e) && (e <=? 138) || (e =? 168) || (e =? 169) || (e =? 175))
   || (c =? 226) && (d =? 129) && (e =? 159)
   || (c =? 227) && (d =? 128) && (e =? 128)
   || (c =? 239) && (d =? 187) && (e =? 191))%nat.

(** The input without the white space at its start; [two] and [three]
    recognise the white space of two and of three bytes. *)
Fixpoint drop_spaces (two : ascii -> ascii -> bool) (three : ascii -> ascii -> ascii -> bool)
  (s : string) : string :=
  match s with
  | EmptyString => EmptyString
  | String c t =>
      if space1 c then drop_spaces two three t
      else
        match t with
        | String d t' =>
            if two c d then drop_spaces two three t'
            else
              match t' with
              | String e t'' => if three c d e then drop_spaces two three t'' else s
              | EmptyString => s
              end
        | EmptyString => s
        end
  end.

Definition trimStart (s : string) : string := drop_spaces space2 space3 s.

(** The white space at the end is the white space at the start of the
    reversed string, read backwards. *)
Definition trimEnd (s : string) : string :=
  reverse (drop_spaces (fun d c => space2 c d) (fun e d c => space3 c d e) (reverse s)).

Definition js_trim (s : string) : string := trimEnd (trimStart s).

(** [/^[0-9.]+$/.test(s)] *)
Definition digits_and_dots (s : string) : bool :=
  negb (s =? "") && all_chars (fun c => is_digit c || Ascii.eqb c ".") s.

(** *** [getLocalNetworkIP] *)

(** An entry of [os.networkInterfaces()], as far as the function reads it. *)
Record NetworkInterfaceInfo : Type := mkAddress {
  address : string;
  family : string;
  internal : bool
}.

(** [os.networkInterfaces()]: the interfaces in the order of [Object.keys],
    each with its addresses. *)
Definition Interfaces : Type := list (string * list NetworkInterfaceInfo).

(** [interfaces[name]] *)
Definition interface_named (interfaces : Interfaces) (name : string)
  : option (list NetworkInterfaceInfo) :=
  option_map snd (find (fun entry => fst entry =? name) interfaces).

Definition priorityOrder : list string :=
  ["以太网"; "Ethernet"; "eth0"; "WLAN"; "Wi-Fi"; "wlan0"; "en0"].

(** [addr.family === 'IPv4' && !addr.internal] *)
Definition external_IPv4 (addr : NetworkInterfaceInfo) : bool :=
  (family addr =? "IPv4") && negb (internal addr).

(** The two nested loops: over the names, and over the addresses of the
    interface of each name.  The result is the first address found and the
    name of its interface. *)
Fixpoint first_external (interfaces : Interfaces) (names : list string)
  : option (string * string) :=
  match names with
  | [] => None
  | name :: rest =>
      match interface_named interfaces name with
      | Some iface =>
          match find external_IPv4 iface with
          | Some addr => Some (address addr, name)
          | None => first_external interfaces rest
          end
      | None => first_external interfaces rest
      end
  end.

Definition found_message (found : string * string) : string :=
  "找到局域网IP: " ++ fst found ++ " (接口: " ++ snd found ++ ")".

(** Where [getLocalNetworkIP] runs: under Node.js, where [import('os')]
    and [os.networkInterfaces()] complete or throw, or in a browser, where
    the answer is what [getLocalIPViaWebRTC()] resolves to. *)
Inductive ProbeContext : Type :=
| NodeOS (networkInterfaces : completion Interfaces)
| WebRTC (resolved : option string).

Definition getLocalNetworkIP (ctx : ProbeContext) : Logged (option string) :=
  match ctx with
  | NodeOS (Normal interfaces) =>
      match first_external interfaces priorityOrder with
      | Some found => console_log (found_message found) ([], Some (fst found))
      | None =>
          match first_external interfaces (map fst interfaces) with
          | Some found => console_log (found_message found) ([], Some (fst found))
          | None => console_warn "未找到局域网IP地址" ([], None)
          end
      end
  | NodeOS (Throw error) =>
      console_error ("获取局域网IP失败: " ++ err_message error) ([], None)
  | WebRTC resolved => ([], resolved)
  end.

(** *** [getPublicIP] *)

Definition services : list string :=
  ["https://api.ipify.org?format=json"; "https://api.ip.sb/ip"; "https://ifconfig.me/ip"].

Section PublicIP.
Context {platform : Platform}.

(** What the body of a response yields: [json.ip] when the text is JSON and
    that member is truthy; when [JSON.parse] or the read of [ip] throws, the
    trimmed text if it consists of digits and dots. *)
Definition service_answer (response : FetchResponse) : option JsVal :=
  if ok response then
    let text := body response in
    match json <- JSON_parse text ;; get json "ip" with
    | Normal ip => if truthy ip then Some ip else None
    | Throw _ =>
        let ip := js_trim text in
        if truthy (JStr ip) && digits_and_dots ip then Some (JStr ip) else None
    end
  else None.

(** [fetch(service, { signal: AbortSignal.timeout(3000) })]: the network; a
    time-out is one of the ways in which it throws. *)
Variable fetch : JsVal -> completion FetchResponse.

(** The loop over the services.  Nothing escapes the [try] around each
    service, so that the [catch] around the loop is never entered. *)
Fixpoint probe (remaining : list string) : Logged (option JsVal) :=
  match remaining with
  | [] => console_warn "所有公网IP服务都失败了" ([], None)
  | service :: rest =>
      match fetch (JStr service) with
      | Normal response =>
          match service_answer response with
          | Some ip => console_log ("获取到公网IP: " ++ to_string ip) ([], Some ip)
          | None => probe rest
          end
      | Throw error =>
          console_warn ("从 " ++ service ++ " 获取公网IP失败: " ++ err_message error)
            (probe rest)
      end
  end.

Definition getPublicIP : Logged (option JsVal) := probe services.

End PublicIP.

Section Passes.
Context {platform : Platform}.

(** A service that does not decide: [fetch] throws, or the response yields
    nothing. *)
Definition passes (fetch : JsVal -> completion FetchResponse) (service : string) : Prop :=
  match fetch (JStr service) with
  | Normal response => service_answer response = None
  | Throw _ => True
  end.

End Passes.

(* ================================================================== *)
(** ** The network-info route *)
(* ================================================================== *)

(** [null] or a value, as a value. *)
Definition or_null (v : option JsVal) : JsVal :=
  match v with
  | Some x => x
  | None => JNull
  end.

(** [undefined] or a string, as a value. *)
Definition or_undefined (s : option string) : JsVal :=
  match s with
  | Some x => JStr x
  | None => JUndefined
  end.

Definition announce_env (siteBase : string) : string :=
  "✅ 已配置环境变量 SITE_BASE，订阅链接将使用: " ++ siteBase.

Definition announce_db (dbSiteBase : string) : string :=
  "✅ 已在系统管理中配置 SITE_BASE，订阅链接将使用: " ++ dbSiteBase.

Definition warn_docker (localIP : string) : string :=
  "⚠️ 检测到 Docker 容器环境 (" ++ localIP ++ ")，请在系统管理 → 站点配置中设置"
  ++ String double_quote "站点访问地址" ++ String double_quote
       "，或在 .env 文件中配置 SITE_BASE 为宿主机IP，例如: http://192.168.31.114:3000".

Definition announce_lan (localIP : string) : string :=
  "✅ 检测到局域网IP: " ++ localIP ++ "，局域网设备可直接访问".

Definition announce_public (publicIP : string) : string :=
  "检测到公网IP: " ++ publicIP ++ "，如需外网访问请配置端口转发和 SITE_BASE".

Definition advise_configuration : string :=
  "⚠️ 建议在系统管理 → 站点配置中设置" ++ String double_quote "站点访问地址"
  ++ String double_quote "，或在 .env 文件中配置 SITE_BASE 环境变量".

(** [getRecommendation]; [publicIP] is whatever [getPublicIP] resolved to. *)
Definition getRecommendation (localIP : option string) (publicIP : option JsVal)
  (siteBase dbSiteBase : option string) : string :=
  if truthy_string siteBase then announce_env (string_value siteBase)
  else if truthy_string dbSiteBase then announce_db (string_value dbSiteBase)
  else if truthy_string localIP && starts_with "172." (string_value localIP) then
    warn_docker (string_value localIP)
  else if truthy_string localIP && starts_with "192.168." (string_value localIP) then
    announce_lan (string_value localIP)
  else if truthy (or_null publicIP) then announce_public (to_string (or_null publicIP))
  else advise_configuration.

(** *** [parseInt(string)] (ECMA-262, 19.2.5), with no radix given *)

Fixpoint Z_of_hex (acc : Z) (digits : string) : Z :=
  match digits with
  | EmptyString => acc
  | String c t =>
      Z_of_hex (16 * acc + Z.of_nat (match hex_value c with Some d => d | None => 0%nat end)) t
  end.

Definition is_hex (c : ascii) : bool :=
  match hex_value c with
  | Some _ => true
  | None => false
  end.

Definition parseInt (input : string) : float :=
  let s := trimStart input in
  let (negative, s) :=
    match s with
    | String "-" t => (true, t)
    | String "+" t => (false, t)
    | _ => (false, s)
    end in
  let (hexadecimal, s) :=
    match s with
    | String "0" (String x t) => if one_of ["x"; "X"]%char x then (true, t) else (false, s)
    | _ => (false, s)
    end in
  let digits := fst (span (if hexadecimal then is_hex else is_digit) s) in
  if digits =? "" then nan
  else
    let magnitude :=
      float_of_Z_scaled (if hexadecimal then Z_of_hex 0 digits else Z_of_digits 0 digits) 0 in
    if negative then (- magnitude)%float else magnitude.

(** [process.env.PORT ? parseInt(process.env.PORT) : 3000] *)
Definition configured_port (PORT : option string) : float :=
  if truthy_string PORT then parseInt (string_value PORT) else 3000%float.

(** [first], and then [next] on its result: the console lines add up. *)
Definition and_then {A B : Type} (first : Logged A) (next : A -> Logged B) : Logged B :=
  ((fst first ++ fst (next (snd first)))%list, snd (next (snd first))).

(** What [getAuthInfoFromCookie(request)] returns, as far as the handlers
    read it: [null], or an object that may have a [username]. *)
Record AuthInfo : Type := mkAuthInfo { auth_username : option string }.

(** The user name when [!authInfo || !authInfo.username] is false. *)
Definition logged_in (authInfo : option AuthInfo) : option string :=
  match authInfo with
  | Some info => if truthy_string (auth_username info) then auth_username info else None
  | None => None
  end.

(** A response and its [Cache-Control] header, if it sets one. *)
Record RouteResponse : Type := mkRoute {
  route_response : NextResponse;
  cache_control : option string
}.

Definition unauthorized : RouteResponse :=
  mkRoute (mkResponse 401 (JObj [("error", JStr "Unauthorized")])) None.

Definition no_store (payload : JsVal) : RouteResponse :=
  mkRoute (mkResponse 200 payload) (Some "no-store").

Module NetworkInfoRoute.
Section Route.
Context {platform : Platform}.

(** The request and what surrounds the handler: the cookie, the probes'
    surroundings, the environment variables, [(await
    getConfig())?.SiteConfig?.SiteBase] (or the exception of [getConfig]) and
    [request.nextUrl.origin]. *)
Variable authInfo : option AuthInfo.
Variable probeContext : ProbeContext.
Variable fetch : JsVal -> completion FetchResponse.
Variables PORT SITE_BASE : option string.
Variable getConfig : completion (option string).
Variable origin : string.

Definition network_info (localIP : option string) (publicIP : option JsVal) (port : float)
  (bestURL : string) (dbSiteBase : option string) : JsVal :=
  JObj [("localIP", or_null (option_map JStr localIP));
        ("publicIP", or_null publicIP);
        ("port", JNum port);
        ("bestURL", JStr bestURL);
        ("siteBase", or_undefined SITE_BASE);
        ("dbSiteBase", or_undefined dbSiteBase);
        ("currentOrigin", JStr origin);
        ("recommendation", JStr (getRecommendation localIP publicIP SITE_BASE dbSiteBase))].

Definition failed (error : JsError) : Logged RouteResponse :=
  console_error ("获取网络信息失败: " ++ err_message error)
    ([], mkRoute (mkResponse 500 (JObj [("error", JStr "获取网络信息失败");
                                        ("details", JStr (err_message error))])) None).

Definition GET : Logged RouteResponse :=
  match logged_in authInfo with
  | None => ([], unauthorized)
  | Some _ =>
      and_then (getLocalNetworkIP probeContext) (fun localIP =>
      and_then (getPublicIP fetch) (fun publicIP =>
      let port := configured_port PORT in
      match getConfig with
      | Throw error => failed error
      | Normal dbSiteBase =>
          and_then (getBestAccessURL (Server SITE_BASE) (Some origin) (Some port) dbSiteBase)
            (fun bestURL =>
               match bestURL with
               | Throw error => failed error
               | Normal bestURL =>
                   ([], no_store (network_info localIP publicIP port bestURL dbSiteBase))
               end)
      end))
  end.

End Route.
End NetworkInfoRoute.

(* ================================================================== *)
(** ** The subscription-link route *)
(* ================================================================== *)

Module SubscribeRoute.
Section Route.
Context {platform : Platform}.

Variable authInfo : option AuthInfo.
Variables ENABLE_TVBOX_SUBSCRIBE TVBOX_SUBSCRIBE_TOKEN PORT SITE_BASE : option string.
(** [request.nextUrl] and its [origin]. *)
Variable nextUrl : URL.
Variable origin : string.
Variable getConfig : completion (option string).

(** [s === 'true'] *)
Definition is_true (s : option string) : bool :=
  match s with
  | Some v => v =? "true"
  | None => false
  end.

Definition disabled : RouteResponse :=
  no_store (JObj [("enabled", JBool false); ("url", JStr "")]).

Definition subscribeUrl (baseUrl subscribeToken : string) (adFilter : bool) : string :=
  baseUrl ++ "/api/tvbox/subscribe?token=" ++ encodeURIComponent_ref subscribeToken
  ++ "&adFilter=" ++ (if adFilter then "true" else "false").

(** The handler has no [try]: an exception of [getConfig] leaves it. *)
Definition GET : Logged (completion RouteResponse) :=
  match logged_in authInfo with
  | None => ([], Normal unauthorized)
  | Some _ =>
      let enableSubscribe := is_true ENABLE_TVBOX_SUBSCRIBE in
      let subscribeToken := TVBOX_SUBSCRIBE_TOKEN in
      if negb enableSubscribe || negb (truthy_string subscribeToken) then ([], Normal disabled)
      else
        let clientOrigin := searchParams_get nextUrl "origin" in
        let adFilter := is_true (searchParams_get nextUrl "adFilter") in
        match getConfig with
        | Throw error => ([], Throw error)
        | Normal dbSiteBase =>
            let port := configured_port PORT in
            and_then
              (getBestAccessURL (Server SITE_BASE)
                 (Some (if truthy_string clientOrigin then string_value clientOrigin
                        else origin))
                 (Some port) dbSiteBase)
              (fun baseUrl =>
                 match baseUrl with
                 | Throw error => ([], Throw error)
                 | Normal baseUrl =>
                     ([], Normal (no_store
                                    (JObj [("enabled", JBool true);
                                           ("url", JStr (subscribeUrl baseUrl
                                                           (string_value subscribeToken)
                                                           adFilter))])))
                 end)
        end
  end.

End Route.
End SubscribeRoute.

(* ================================================================== *)
(** ** admin-auth.ts *)
(* ================================================================== *)

(** A user as the store ([db.getUserInfoV2]) or the configuration
    ([config.UserConfig.Users]) knows it; [banned] is the truthiness of that
    field. *)
Record UserInfo : Type := mkUser {
  user_name : string;
  role : string;
  banned : bool
}.

Inductive AdminRole : Type := owner | admin.

Inductive AdminPermission : Type :=
| AdminGranted (username : string) (granted : AdminRole)
| AdminDenied (response : NextResponse).

Inductive OwnerPermission : Type :=
| OwnerGranted (username : string)
| OwnerDenied (response : NextResponse).

Definition refusal (status : Z) (message : string) : NextResponse :=
  mkResponse status (JObj [("error", JStr message)]).

(** [s === t] for [t : string | undefined]. *)
Definition same_string (s : string) (t : option string) : bool :=
  match t with
  | Some v => s =? v
  | None => false
  end.

Section AdminAuth.

Variables NEXT_PUBLIC_STORAGE_TYPE USERNAME : option string.
Variable authInfo : option AuthInfo.
(** [db.getUserInfoV2(username)] and [getConfig()], each completing or
    throwing; of the configuration, [UserConfig.Users]. *)
Variable getUserInfoV2 : string -> completion (option UserInfo).
Variable getConfig : completion (list UserInfo).

Definition storageType : string :=
  if truthy_string NEXT_PUBLIC_STORAGE_TYPE then string_value NEXT_PUBLIC_STORAGE_TYPE
  else "localstorage".

(** The [try] block of [checkAdminPermission]. *)
Definition lookup_admin (username : string) : completion AdminPermission :=
  userInfo <- getUserInfoV2 username ;;
  match userInfo with
  | Some userInfo =>
      if (role userInfo =? "admin") && negb (banned userInfo)
      then Normal (AdminGranted username admin)
      else Normal (AdminDenied (refusal 403 "权限不足"))
  | None =>
      config <- getConfig ;;
      match find (fun u => user_name u =? username) config with
      | Some user =>
          if (role user =? "admin") && negb (banned user)
          then Normal (AdminGranted username admin)
          else Normal (AdminDenied (refusal 403 "权限不足"))
      | None => Normal (AdminDenied (refusal 403 "权限不足"))
      end
  end.

Definition checkAdminPermission : Logged AdminPermission :=
  if storageType =? "localstorage" then
    ([], AdminDenied (refusal 400 "不支持本地存储进行管理员操作"))
  else
    match logged_in authInfo with
    | None => ([], AdminDenied (refusal 401 "未授权"))
    | Some username =>
        if same_string username USERNAME then ([], AdminGranted username owner)
        else
          match lookup_admin username with
          | Normal permission => ([], permission)
          | Throw error =>
              console_error ("权限检查失败: " ++ err_message error)
                ([], AdminDenied (refusal 500 "服务器错误"))
          end
    end.

Definition checkOwnerPermission : OwnerPermission :=
  match logged_in authInfo with
  | None => OwnerDenied (refusal 401 "未授权")
  | Some username =>
      if same_string username USERNAME then OwnerGranted username
      else OwnerDenied (refusal 403 "仅站长可执行此操作")
  end.

End AdminAuth.

(* ================================================================== *)
(** ** The TVBox parsing script: [fetchSubscription] *)
(* ================================================================== *)

Section FetchSubscription.
Context {platform : Platform}.
Variable fetch : JsVal -> completion FetchResponse.

(** [new Error(message)] *)
Definition plain_error (message : string) : JsError := mkError OtherError message.

Definition fetch_failed_message (response : FetchResponse) : string :=
  "获取订阅失败: " ++ string_of_Z (status response) ++ " " ++ statusText response.

Definition fetchSubscription (url : string) : completion JsVal :=
  response <- fetch (JStr url) ;;
  if negb (ok response) then Throw (plain_error (fetch_failed_message response))
  else if string_includes "application/json" (contentType response) then
    JSON_parse (body response)
  else
    let text := body response in
    try_catch (JSON_parse text) (fun e => Throw (plain_error "订阅内容不是有效的JSON格式")).

End FetchSubscription.

(* ================================================================== *)
(** ** Notions used to state the further properties *)
(* ================================================================== *)

(** The first of the candidate addresses that is not empty, in the order in
    which a handler on the server has [getBestAccessURL] consider them. *)
Definition first_configured (SITE_BASE dbSiteBase : option string) (origin : string) : string :=
  if truthy_string SITE_BASE then string_value SITE_BASE
  else if truthy_string dbSiteBase then string_value dbSiteBase
  else if truthy_string (Some origin) then origin
  else DEFAULT_URL.

(** The query of a subscription link. *)
Definition subscribe_query (subscribeToken : string) (adFilter : bool) : string :=
  "token=" ++ encodeURIComponent_ref subscribeToken
  ++ "&adFilter=" ++ (if adFilter then "true" else "false").

Definition not_query_delimiter (c : ascii) : bool := negb (one_of ["?"; "#"]%char c).

(** What the store, or else the configuration, says of a user who is an
    admin in good standing. *)
Definition listed_admin (getUserInfoV2 : string -> completion (option UserInfo))
  (getConfig : completion (list UserInfo)) (username : string) : Prop :=
  (exists info, getUserInfoV2 username = Normal (Some info)
                /\ role info = "admin" /\ banned info = false)
  \/ (getUserInfoV2 username = Normal None
      /\ exists config user,
          getConfig = Normal config
          /\ find (fun u => user_name u =? username) config = Some user
          /\ role user = "admin" /\ banned user = false).

(** Whether a value has an [includes] method: strings and arrays do. *)
Definition has_includes (v : JsVal) : bool :=
  match v with
  | JStr _ | JArr _ => true
  | _ => false
  end.

(** A record that the type filter keeps and whose [api] is truthy but is
    neither a string nor an array. *)
Definition api_without_includes (site : JsVal) : bool :=
  type_is_one site && truthy (field site "api") && negb (has_includes (field site "api")).

(** A number below 256 in decimal, and a dotted address. *)
Definition decimal (n : nat) : string := NilZero.string_of_uint (Nat.to_uint n).

Definition dotted (a b c d : nat) : string :=
  decimal a ++ "." ++ decimal b ++ "." ++ decimal c ++ "." ++ decimal d.

(** What is checked of the decimal form of each number below 256. *)
Definition decimal_checked (n : nat) : bool :=
  all_chars is_digit (decimal n) && negb (decimal n =? "")
  && match decimal_value (decimal n) with
     | Some m => (m =? n)%nat
     | None => false
     end.

(** The inputs of the examples: a table of interfaces, a network on which
    the first address service times out and the second answers in plain
    text, a request URL with an [origin] parameter, and users. *)
Definition example_interfaces : Interfaces :=
  [("lo", [mkAddress "127.0.0.1" "IPv4" true]);
   ("docker0", [mkAddress "172.17.0.1" "IPv4" false]);
   ("eth0", [mkAddress "fe80::1" "IPv6" false; mkAddress "192.168.1.10" "IPv4" false])].

Definition plain_text_answer : FetchResponse :=
  mkFetchResponse 200 "OK" (Some "text/plain") (String.append "203.0.113.7" (String (ascii_of_nat 10) "")).

Definition fetch_second_answers (url : JsVal) : completion FetchResponse :=
  match url with
  | JStr "https://api.ip.sb/ip" => Normal plain_text_answer
  | _ => Throw (mkError OtherError "The operation was aborted due to timeout")
  end.

Definition example_nextUrl : RefURL :=
  mkURL "http" "tv.example" "/api/tvbox/config"
    (Some "origin=http%3A%2F%2Fclient.example&adFilter=true") None.

Definition store_with_banned_admin (username : string) : completion (option UserInfo) :=
  Normal (Some (mkUser username "admin" true)).

Definition config_with_admin : completion (list UserInfo) :=
  Normal [mkUser "alice" "admin" false].

(* ================================================================== *)
(** ** Properties of network-utils.ts *)
(* ================================================================== *)

Section AddressResolver.

Variables (currentOrigin : option string) (port : option float) (dbSiteBase : option string).

Lemma truthy_string_Some (s : string) : s <> "" -> truthy_string (Some s) = true.
Proof.
  intro H. simpl. destruct (String.eqb_spec s ""); [contradiction | reflexivity].
Qed.

Lemma clientAddress_origin (ctx : ExecutionContext) (o : string) :
  o <> "" -> snd (clientAddress ctx (Some o)) = Normal o.
Proof.
  intro H. unfold clientAddress. rewrite (truthy_string_Some o H). reflexivity.
Qed.

Lemma clientAddress_total (ctx : ExecutionContext) (origin : option string) :
  exists url, snd (clientAddress ctx origin) = Normal url.
Proof.
  unfold clientAddress.
  destruct (truthy_string origin); [eexists; reflexivity |].
  destruct ctx; eexists; reflexivity.
Qed.

(** C1 (as amended).  The priority order of [getBestAccessURL]: on the server
    a non-empty [SITE_BASE] is returned whatever the other arguments are;
    failing that, still on the server, a non-empty [dbSiteBase]; failing
    that, or in a browser, a non-empty [currentOrigin]; failing that, in a
    browser the origin of the current page and on the server
    ["http://localhost:3000"]. *)
Theorem getBestAccessURL_priority (ctx : ExecutionContext) :
  let result := snd (getBestAccessURL ctx currentOrigin port dbSiteBase) in
  (forall envBase, ctx = Server (Some envBase) -> envBase <> "" ->
     result = Normal envBase) /\
  (forall SITE_BASE persistedBase, ctx = Server SITE_BASE ->
     truthy_string SITE_BASE = false ->
     dbSiteBase = Some persistedBase -> persistedBase <> "" ->
     result = Normal persistedBase) /\
  (forall callerOrigin,
     (forall SITE_BASE, ctx = Server SITE_BASE ->
        truthy_string SITE_BASE = false /\ truthy_string dbSiteBase = false) ->
     currentOrigin = Some callerOrigin -> callerOrigin <> "" ->
     result = Normal callerOrigin) /\
  (forall pageOrigin, ctx = Browser pageOrigin ->
     truthy_string currentOrigin = false ->
     result = Normal pageOrigin) /\
  (forall SITE_BASE, ctx = Server SITE_BASE ->
     truthy_string SITE_BASE = false -> truthy_string dbSiteBase = false ->
     truthy_string currentOrigin = false ->
     result = Normal DEFAULT_URL).
Proof.
  cbv zeta. repeat split.
  - intros envBase -> Hne. unfold getBestAccessURL.
    rewrite (truthy_string_Some envBase Hne). reflexivity.
  - intros SITE_BASE persistedBase -> Henv -> Hne. unfold getBestAccessURL.
    rewrite Henv, (truthy_string_Some persistedBase Hne). reflexivity.
  - intros callerOrigin Hctx -> Hne. destruct ctx as [SITE_BASE | page].
    + destruct (Hctx SITE_BASE eq_refl) as [Henv Hdb]. unfold getBestAccessURL.
      rewrite Henv, Hdb. cbn [console_log snd]. now apply clientAddress_origin.
    + now apply clientAddress_origin.
  - intros pageOrigin -> Horigin. unfold getBestAccessURL, clientAddress.
    rewrite Horigin. reflexivity.
  - intros SITE_BASE -> Henv Hdb Horigin. unfold getBestAccessURL, clientAddress.
    rewrite Henv, Hdb, Horigin. reflexivity.
Qed.

(** C8.  [getBestAccessURL] completes normally with a string for every
    context and every choice of its three arguments: no path throws. *)
Theorem getBestAccessURL_total (ctx : ExecutionContext) :
  exists url : string, snd (getBestAccessURL ctx currentOrigin port dbSiteBase) = Normal url.
Proof.
  unfold getBestAccessURL. destruct ctx as [SITE_BASE | page].
  - destruct (truthy_string SITE_BASE); [eexists; reflexivity |].
    destruct (truthy_string dbSiteBase); [eexists; reflexivity |].
    cbn [console_log snd]. apply clientAddress_total.
  - apply clientAddress_total.
Qed.

(** C9.  The [port] argument has no influence: two calls that differ only in
    it return the same address and write the same lines to the console. *)
Theorem getBestAccessURL_ignores_port (ctx : ExecutionContext) (port' : option float) :
  getBestAccessURL ctx currentOrigin port dbSiteBase
  = getBestAccessURL ctx currentOrigin port' dbSiteBase.
Proof.
  destruct ctx; reflexivity.
Qed.

End AddressResolver.

Section LocalNetwork.

Lemma residuals_sound (r : regex) :
  forall s t, In t (residuals r s) -> exists u, matches r u /\ s = u ++ t.
Proof.
  induction r as [| c | lo hi | r1 IH1 r2 IH2 | r1 IH1 r2 IH2]; intros s t Hin; simpl in Hin.
  - destruct Hin as [<- | []]. exists EmptyString. split; [constructor | reflexivity].
  - destruct s as [| d s']; [contradiction |].
    destruct (Ascii.eqb_spec c d) as [<- | _]; [| contradiction].
    destruct Hin as [<- | []]. exists (String c EmptyString). split; [constructor | reflexivity].
  - destruct s as [| d s']; [contradiction |].
    destruct (in_range lo hi d) eqn:Hd; [| contradiction].
    destruct Hin as [<- | []]. exists (String d EmptyString).
    split; [now constructor | reflexivity].
  - apply in_flat_map in Hin. destruct Hin as [m [Hm Ht]].
    destruct (IH1 _ _ Hm) as [u [Hu ->]]. destruct (IH2 _ _ Ht) as [v [Hv ->]].
    exists (u ++ v). split; [now constructor |].
    clear. induction u as [| a u IHu]; simpl; [reflexivity | now rewrite IHu].
  - apply in_app_or in Hin. destruct Hin as [Hin | Hin].
    + destruct (IH1 _ _ Hin) as [u [Hu ->]]. exists u. split; [now apply matches_Alt_l | reflexivity].
    + destruct (IH2 _ _ Hin) as [u [Hu ->]]. exists u. split; [now apply matches_Alt_r | reflexivity].
Qed.

Lemma append_assoc (u v w : string) : (u ++ v) ++ w = u ++ (v ++ w).
Proof.
  induction u as [| a u IHu]; simpl; [reflexivity | now rewrite IHu].
Qed.

Lemma residuals_complete (r : regex) (u : string) :
  matches r u -> forall t, In t (residuals r (u ++ t)).
Proof.
  induction 1 as [| c | lo hi c Hc | r1 r2 u v _ IH1 _ IH2 | r1 r2 u _ IH | r1 r2 u _ IH];
    intro t; simpl.
  - now left.
  - rewrite Ascii.eqb_refl. now left.
  - rewrite Hc. now left.
  - apply in_flat_map. exists (v ++ t). split.
    + rewrite append_assoc. apply IH1.
    + apply IH2.
  - apply in_or_app. left. apply IH.
  - apply in_or_app. right. apply IH.
Qed.

(** [/^r/.test(s)] holds exactly when [s] starts with a string that [r]
    denotes. *)
Lemma regex_test_spec (r : regex) (s : string) :
  regex_test r s = true <-> exists u t, matches r u /\ s = u ++ t.
Proof.
  unfold regex_test. split.
  - destruct (residuals r s) as [| t l] eqn:E; [discriminate |]. intros _.
    destruct (residuals_sound r s t) as [u [Hu ->]]; [rewrite E; now left |].
    now exists u, t.
  - intros [u [t [Hu ->]]]. pose proof (residuals_complete r u Hu t) as Hin.
    destruct (residuals r (u ++ t)); [contradiction | reflexivity].
Qed.

Lemma matches_lit (p u : string) : matches (lit p) u <-> u = p.
Proof.
  revert u. induction p as [| c p IHp]; intro u; simpl; split.
  - inversion 1. reflexivity.
  - intros ->. constructor.
  - inversion 1 as [| | | r1 r2 a b Ha Hb | |]; subst.
    inversion Ha; subst. apply IHp in Hb. subst. reflexivity.
  - intros ->. apply (matches_Cat (Chr c) (lit p) (String c EmptyString) p).
    + constructor.
    + now apply IHp.
Qed.

Lemma regex_test_lit (p s : string) :
  regex_test (lit p) s = true <-> exists rest, s = p ++ rest.
Proof.
  rewrite regex_test_spec. split.
  - intros [u [t [Hu ->]]]. apply matches_lit in Hu. subst. now exists t.
  - intros [rest ->]. exists p, rest. split; [now apply matches_lit | reflexivity].
Qed.

(** A digit after a fixed tens digit spells the number. *)
Lemma two_digits_tens (d : nat) (c : ascii) :
  (1 <= d <= 3)%nat -> in_range "0" "9" c = true ->
  two_digits (10 * d + (nat_of_ascii c - 48)) = String (ascii_of_nat (48 + d)) (String c EmptyString).
Proof.
  intros Hd Hc.
  assert (d = 1 \/ d = 2 \/ d = 3)%nat as [-> | [-> | ->]] by lia;
    destruct c as [[] [] [] [] [] [] [] []]; try discriminate Hc; reflexivity.
Qed.

(** The strings denoted by [(1[6-9]|2[0-9]|3[0-1])]: the numbers 16 to 31. *)
Lemma matches_private_172 (u : string) :
  matches (Alt (Cat (Chr "1") (Range "6" "9"))
            (Alt (Cat (Chr "2") (Range "0" "9")) (Cat (Chr "3") (Range "0" "1")))) u
  <-> exists n, (16 <= n <= 31)%nat /\ u = two_digits n.
Proof.
  split.
  - intro H.
    assert (exists d c, (1 <= d <= 3)%nat /\ in_range "0" "9" c = true
                        /\ (16 <= 10 * d + (nat_of_ascii c - 48) <= 31)%nat
                        /\ u = String (ascii_of_nat (48 + d)) (String c EmptyString))
      as [d [c [Hd [Hc [Hn ->]]]]].
    { inversion H as [| | | | r1 r2 w H1 | r1 r2 w H1]; subst.
      - inversion H1 as [| | | r1 r2 a b Ha Hb | |]; subst.
        inversion Ha; subst. inversion Hb as [| | lo hi c Hc | | |]; subst.
        exists 1%nat, c.
        destruct c as [[] [] [] [] [] [] [] []]; try discriminate Hc;
          repeat split; first [reflexivity | vm_compute; lia].
      - inversion H1 as [| | | | r1 r2 w H2 | r1 r2 w H2]; subst;
          inversion H2 as [| | | r1 r2 a b Ha Hb | |]; subst;
          inversion Ha; subst; inversion Hb as [| | lo hi c Hc | | |]; subst.
        + exists 2%nat, c.
          destruct c as [[] [] [] [] [] [] [] []]; try discriminate Hc;
            repeat split; first [reflexivity | vm_compute; lia].
        + exists 3%nat, c.
          destruct c as [[] [] [] [] [] [] [] []]; try discriminate Hc;
            repeat split; first [reflexivity | vm_compute; lia]. }
    eexists. split; [exact Hn |]. symmetry. now apply two_digits_tens.
  - intros [n [Hn ->]].
    assert (n = 16 \/ n = 17 \/ n = 18 \/ n = 19 \/ n = 20 \/ n = 21 \/ n = 22 \/ n = 23
            \/ n = 24 \/ n = 25 \/ n = 26 \/ n = 27 \/ n = 28 \/ n = 29 \/ n = 30 \/ n = 31)%nat
      as Hcases by lia.
    repeat (destruct Hcases as [-> | Hcases]); try subst n;
      first
        [ apply matches_Alt_l;
          apply (matches_Cat (Chr "1") (Range "6" "9") (String "1" EmptyString) (String _ EmptyString));
          [constructor | constructor; reflexivity]
        | apply matches_Alt_r; apply matches_Alt_l;
          apply (matches_Cat (Chr "2") (Range "0" "9") (String "2" EmptyString) (String _ EmptyString));
          [constructor | constructor; reflexivity]
        | apply matches_Alt_r; apply matches_Alt_r;
          apply (matches_Cat (Chr "3") (Range "0" "1") (String "3" EmptyString) (String _ EmptyString));
          [constructor | constructor; reflexivity] ].
Qed.

Lemma regex_test_private_172 (s : string) :
  regex_test (Cat (lit "172.")
                (Cat (Alt (Cat (Chr "1") (Range "6" "9"))
                        (Alt (Cat (Chr "2") (Range "0" "9")) (Cat (Chr "3") (Range "0" "1"))))
                     (Chr "."))) s = true
  <-> exists n rest, (16 <= n <= 31)%nat /\ s = "172." ++ two_digits n ++ "." ++ rest.
Proof.
  rewrite regex_test_spec. split.
  - intros [u [t [Hu ->]]].
    inversion Hu as [| | | r1 r2 a bc Ha Hbc | |]; subst.
    inversion Hbc as [| | | r1 r2 b c Hb Hc | |]; subst.
    apply (proj1 (matches_lit "172." a)) in Ha. subst a.
    apply matches_private_172 in Hb. destruct Hb as [n [Hn ->]].
    inversion Hc; subst. exists n, t. split; [exact Hn | reflexivity].
  - intros [n [rest [Hn ->]]]. exists ("172." ++ two_digits n ++ "."), rest. split.
    + apply (matches_Cat (lit "172.") _ "172." (two_digits n ++ ".")).
      * now apply matches_lit.
      * apply (matches_Cat _ (Chr ".") (two_digits n) ".").
        -- apply matches_private_172. now exists n.
        -- constructor.
    + reflexivity.
Qed.

Lemma octet_2_of_172 (n : nat) (rest : string) :
  (16 <= n <= 31)%nat -> octet 2 ("172." ++ two_digits n ++ "." ++ rest) = Some n.
Proof.
  intro Hn.
  assert (n = 16 \/ n = 17 \/ n = 18 \/ n = 19 \/ n = 20 \/ n = 21 \/ n = 22 \/ n = 23
          \/ n = 24 \/ n = 25 \/ n = 26 \/ n = 27 \/ n = 28 \/ n = 29 \/ n = 30 \/ n = 31)%nat
    as Hcases by lia.
  repeat (destruct Hcases as [-> | Hcases]); try subst n; reflexivity.
Qed.

(** C7 (as amended).  [isLocalNetwork] answers [true] exactly for
    ["localhost"], for ["127.0.0.1"] and for the names that start with
    ["192.168."], with ["10."] or with ["172.N."] for a two-digit [N] from 16
    to 31: for a dotted address it is the second octet that has to lie in
    [[16,31]].  It is [true] on ["192.168.1.5"], ["10.0.0.1"], ["172.20.3.4"],
    ["localhost"] and ["127.0.0.1"] and [false] on ["8.8.8.8"] and
    ["172.32.0.1"]. *)
Theorem isLocalNetwork_spec :
  (forall hostname : string,
     isLocalNetwork hostname = true <->
     hostname = "localhost" \/ hostname = "127.0.0.1"
     \/ (exists rest, hostname = "192.168." ++ rest)
     \/ (exists rest, hostname = "10." ++ rest)
     \/ (exists n rest, (16 <= n <= 31)%nat /\ octet 2 hostname = Some n
                        /\ hostname = "172." ++ two_digits n ++ "." ++ rest))
  /\ isLocalNetwork "192.168.1.5" = true
  /\ isLocalNetwork "10.0.0.1" = true
  /\ isLocalNetwork "172.20.3.4" = true
  /\ isLocalNetwork "localhost" = true
  /\ isLocalNetwork "127.0.0.1" = true
  /\ isLocalNetwork "8.8.8.8" = false
  /\ isLocalNetwork "172.32.0.1" = false.
Proof.
  split; [| repeat split; reflexivity].
  intro hostname. unfold isLocalNetwork.
  destruct (String.eqb_spec hostname "localhost") as [-> | Hlocalhost];
    [split; [now left | reflexivity] |].
  destruct (String.eqb_spec hostname "127.0.0.1") as [-> | Hloopback];
    [split; [right; now left | reflexivity] |].
  cbn [orb localPatterns existsb].
  rewrite !orb_true_iff, !regex_test_lit, regex_test_private_172. split.
  - intros [H | [H | [[n [rest [Hn ->]]] | H]]]; [| | | discriminate H].
    + right; right; now left.
    + right; right; right; now left.
    + right; right; right; right. exists n, rest.
      split; [exact Hn | split; [now apply octet_2_of_172 | reflexivity]].
  - intros [H | [H | [H | [H | [n [rest [Hn [_ ->]]]]]]]]; try contradiction.
    + now left.
    + right; now left.
    + right; right; left. now exists n, rest.
Qed.

(** C7, counterexample.  The third octet decides nothing: ["172.20.99.1"] is
    local although its third octet is 99, and ["172.99.20.1"] is not local
    although its third octet is 20. *)
Lemma isLocalNetwork_third_octet_irrelevant :
  (isLocalNetwork "172.20.99.1" = true /\ octet 3 "172.20.99.1" = Some 99%nat
   /\ ~ (16 <= 99 <= 31)%nat)
  /\ (isLocalNetwork "172.99.20.1" = false /\ octet 3 "172.99.20.1" = Some 20%nat
      /\ (16 <= 20 <= 31)%nat).
Proof.
  repeat split; try reflexivity; lia.
Qed.

End LocalNetwork.

(* ================================================================== *)
(** ** Properties of the subscription parser *)
(* ================================================================== *)

Lemma bind_Normal {A B : Type} (c : completion A) (k : A -> completion B) (b : B) :
  bind c k = Normal b -> exists a, c = Normal a /\ k a = Normal b.
Proof.
  destruct c as [a | e]; simpl; [intro H; now exists a | discriminate].
Qed.

Section Completions.

Context {A B : Type}.

Lemma array_filter_pure (p : A -> bool) (l : list A) :
  array_filter (fun x => Normal (p x)) l = Normal (filter p l).
Proof.
  induction l as [| x l IH]; simpl; [reflexivity |].
  rewrite IH. simpl. now destruct (p x).
Qed.

(** A [filter] that completes has evaluated its callback on every element. *)
Lemma array_filter_Normal (p : A -> completion bool) (q : A -> bool) (l out : list A) :
  (forall x b, p x = Normal b -> b = q x) ->
  array_filter p l = Normal out ->
  out = filter q l /\ Forall (fun x => exists b, p x = Normal b) l.
Proof.
  intro Hq. revert out. induction l as [| x l IH]; simpl; intros out H.
  - injection H as <-. split; [reflexivity | constructor].
  - apply bind_Normal in H. destruct H as [b [Hb H]].
    destruct (array_filter p l) as [ys |]; [| discriminate].
    simpl in H. injection H as <-.
    destruct (IH ys eq_refl) as [-> Hall]. rewrite <- (Hq x b Hb).
    split; [reflexivity | constructor; [now exists b | exact Hall]].
Qed.

(** A [map] that completes has produced its results element by element. *)
Lemma array_map_Normal (f : A -> completion B) (l : list A) (out : list B) :
  array_map f l = Normal out -> Forall2 (fun x y => f x = Normal y) l out.
Proof.
  revert out. induction l as [| x l IH]; simpl; intros out H.
  - injection H as <-. constructor.
  - destruct (f x) as [y |] eqn:Hy; [| discriminate]. simpl in H.
    destruct (array_map f l) as [ys |]; [| discriminate].
    simpl in H. injection H as <-. constructor; [exact Hy | now apply IH].
Qed.

Lemma array_map_pure (f : A -> completion B) (g : A -> B) (l : list A) :
  Forall (fun x => f x = Normal (g x)) l -> array_map f l = Normal (map g l).
Proof.
  induction 1 as [| x l Hx _ IH]; simpl; [reflexivity |].
  rewrite Hx, IH. reflexivity.
Qed.

End Completions.

Lemma get_field (v : JsVal) (k : string) : nullish v = false -> get v k = Normal (field v k).
Proof.
  unfold field. destruct v; simpl; intro H; try reflexivity; discriminate H.
Qed.

Lemma get_Normal (v x : JsVal) (k : string) :
  get v k = Normal x -> nullish v = false /\ x = field v k.
Proof.
  unfold field. destruct v; simpl; intro H; try discriminate H;
    injection H as <-; split; reflexivity.
Qed.

Lemma as_array_records (document s : JsVal) (k method : string) (items : list JsVal) :
  get document k = Normal s -> as_array method (js_or s (JArr [])) = Normal items ->
  records document k = items.
Proof.
  intros Hs Hitems. apply get_Normal in Hs. destruct Hs as [_ ->].
  unfold records. destruct (js_or (field document k) (JArr [])); simpl in Hitems;
    try discriminate Hitems. now injection Hitems.
Qed.

Lemma truthy_js_and (a b : JsVal) :
  truthy (js_and a b) = true <-> truthy a = true /\ truthy b = true.
Proof.
  unfold js_and. destruct (truthy a) eqn:Ha; [tauto |]. rewrite Ha. split; [discriminate | tauto].
Qed.

Lemma truthy_not_empty (v : JsVal) : truthy v = true -> v <> JStr "".
Proof.
  intros H ->. discriminate H.
Qed.

Section ParserProperties.

Context {platform : Platform}.

(** The site pipeline, stage by stage, when it completes. *)
Lemma parsedSites_stages (subscriptionData : JsVal) (out : list ParsedSite) :
  parsedSites subscriptionData = Normal out ->
  exists mapped,
    Forall2 emitted (filter type_is_one (records subscriptionData "sites")) mapped
    /\ out = filter site_kept mapped.
Proof.
  unfold parsedSites. intro H.
  apply bind_Normal in H. destruct H as [s [Hs H]].
  apply bind_Normal in H. destruct H as [items [Hitems H]].
  rewrite (as_array_records _ _ _ _ _ Hs Hitems).
  apply bind_Normal in H. destruct H as [kept [Hkept H]].
  apply bind_Normal in H. destruct H as [mapped [Hmapped H]].
  rewrite array_filter_pure in H. injection H as <-.
  apply (array_filter_Normal _ type_is_one) in Hkept.
  - destruct Hkept as [-> Hall]. exists mapped. split; [| reflexivity].
    apply array_map_Normal in Hmapped.
    assert (Forall (fun x => nullish x = false) (filter type_is_one items)) as Hobjects.
    { apply Forall_forall. intros x Hx. apply filter_In in Hx. destruct Hx as [Hx _].
      rewrite Forall_forall in Hall. destruct (Hall x Hx) as [b Hb].
      apply bind_Normal in Hb. destruct Hb as [t [Ht _]]. now apply get_Normal in Ht. }
    clear Hall. induction Hmapped as [| x y l l' Hxy _ IH]; [constructor |].
    inversion Hobjects as [| ? ? Hx Hl]; subst. constructor; [| now apply IH].
    unfold emitted, effective_api. rewrite !(get_field x _ Hx) in Hxy. simpl in Hxy.
    apply bind_Normal in Hxy. destruct Hxy as [proxied [Hproxied Hxy]]. rewrite Hproxied. simpl.
    apply bind_Normal in Hxy. destruct Hxy as [apiUrl [HapiUrl Hxy]].
    exists apiUrl. split; [exact HapiUrl | now injection Hxy].
  - intros x b Hb. apply bind_Normal in Hb. destruct Hb as [t [Ht Hb]].
    apply get_Normal in Ht. destruct Ht as [_ ->]. now injection Hb.
Qed.

(** The live pipeline when it completes. *)
Lemma parsedLives_stages (subscriptionData : JsVal) (out : list ParsedLive) :
  parsedLives subscriptionData = Normal out ->
  out = filter live_kept (map to_live (records subscriptionData "lives")).
Proof.
  unfold parsedLives. intro H.
  apply bind_Normal in H. destruct H as [l [Hl H]].
  apply bind_Normal in H. destruct H as [items [Hitems H]].
  rewrite (as_array_records _ _ _ _ _ Hl Hitems).
  apply bind_Normal in H. destruct H as [mapped [Hmapped H]].
  rewrite array_filter_pure in H. injection H as <-. f_equal.
  apply array_map_Normal in Hmapped. clear Hl Hitems.
  induction Hmapped as [| x y l0 l' Hxy _ IH]; [reflexivity |].
  simpl. rewrite <- IH. f_equal.
  apply bind_Normal in Hxy. destruct Hxy as [n [Hn Hxy]].
  apply get_Normal in Hn. destruct Hn as [Hx ->].
  rewrite !(get_field x _ Hx) in Hxy. simpl in Hxy. now injection Hxy.
Qed.

(** The live pipeline completes on a document whose [lives] are absent or a
    sequence of values other than [null]. *)
Lemma parsedLives_completes (subscriptionData : JsVal) :
  nullish subscriptionData = false ->
  as_array "map" (js_or (field subscriptionData "lives") (JArr []))
  = Normal (records subscriptionData "lives") ->
  Forall (fun live => nullish live = false) (records subscriptionData "lives") ->
  parsedLives subscriptionData
  = Normal (filter live_kept (map to_live (records subscriptionData "lives"))).
Proof.
  intros Hdoc Harray Hlives. unfold parsedLives.
  rewrite (get_field _ _ Hdoc). simpl. rewrite Harray. simpl.
  rewrite (array_map_pure _ to_live).
  - simpl. apply array_filter_pure.
  - eapply Forall_impl; [| exact Hlives]. intros live Hlive. simpl in Hlive.
    rewrite !(get_field live _ Hlive). reflexivity.
Qed.

Lemma site_kept_nonempty (site : ParsedSite) : site_kept site = true -> site_nonempty site.
Proof.
  unfold site_kept, site_nonempty. rewrite truthy_js_and. intros [Hapi Hname].
  repeat split; auto using truthy_not_empty.
Qed.

Lemma live_kept_nonempty (live : ParsedLive) : live_kept live = true -> live_nonempty live.
Proof.
  unfold live_kept, live_nonempty. rewrite truthy_js_and. intros [Hurl Hname].
  repeat split; auto using truthy_not_empty.
Qed.

Lemma parsedSites_A_B : parsedSites document_A_B = Normal [parsed_A].
Proof. reflexivity. Qed.

Lemma parsedSites_unnamed : parsedSites (sites_document [site_unnamed]) = Normal [].
Proof. reflexivity. Qed.

(** C3.  Whenever the parser produces its lists, every site in the output has
    a [name] and an [api] that are truthy, hence not the empty string, and
    every live entry has such a [name] and [url]: an entry for which a field
    fell back to [''] is not emitted.  A site record with [name: ""] and a
    valid [api] gives no output entry. *)
Theorem parsed_entries_nonempty (subscriptionData : JsVal) :
  (forall sites, parsedSites subscriptionData = Normal sites -> Forall site_nonempty sites)
  /\ (forall lives, parsedLives subscriptionData = Normal lives -> Forall live_nonempty lives)
  /\ parsedSites (sites_document [site_unnamed]) = Normal [].
Proof.
  repeat split.
  - intros sites H. apply parsedSites_stages in H. destruct H as [mapped [_ ->]].
    apply Forall_forall. intros site Hin. apply filter_In in Hin.
    now apply site_kept_nonempty.
  - intros lives H. apply parsedLives_stages in H. subst lives.
    apply Forall_forall. intros live Hin. apply filter_In in Hin.
    now apply live_kept_nonempty.
Qed.

Lemma Forall2_In_r {A B : Type} (R : A -> B -> Prop) (l : list A) (l' : list B) (y : B) :
  Forall2 R l l' -> In y l' -> exists x, In x l /\ R x y.
Proof.
  induction 1 as [| a b l l' Hab _ IH]; simpl; [contradiction |].
  intros [<- | Hin].
  - exists a. split; [now left | exact Hab].
  - destruct (IH Hin) as [x [Hx Hxy]]. exists x. split; [now right | exact Hxy].
Qed.

Lemma Forall2_In_l {A B : Type} (R : A -> B -> Prop) (l : list A) (l' : list B) (x : A) :
  Forall2 R l l' -> In x l -> exists y, In y l' /\ R x y.
Proof.
  induction 1 as [| a b l l' Hab _ IH]; simpl; [contradiction |].
  intros [<- | Hin].
  - exists b. split; [now left | exact Hab].
  - destruct (IH Hin) as [y [Hy Hxy]]. exists y. split; [now right | exact Hxy].
Qed.

(** C5 (as amended).  Whenever the parser produces its list of sites, the
    list consists, in the order of the document, of what is emitted for the
    records with [type === 1], less the entries whose [name] or [api] is
    empty: every parsed site comes from a record of type 1, a record of any
    other type contributes nothing, and a record of type 1 is kept exactly
    when its emitted [name] and [api] are not empty.  For the document with
    the records A (type 1) and B (type 2) the output is the single site
    named ["A"]. *)
Theorem parsedSites_type_1_and_valid (subscriptionData : JsVal) (out : list ParsedSite) :
  parsedSites subscriptionData = Normal out ->
  (exists mapped,
      Forall2 emitted (filter type_is_one (records subscriptionData "sites")) mapped
      /\ out = filter site_kept mapped)
  /\ (forall site, In site out ->
        exists record, In record (records subscriptionData "sites")
                       /\ type_is_one record = true /\ emitted record site
                       /\ site_kept site = true)
  /\ (forall record, In record (records subscriptionData "sites") ->
        type_is_one record = true ->
        exists site, emitted record site /\ (site_kept site = true -> In site out))
  /\ parsedSites document_A_B = Normal [parsed_A].
Proof.
  intro H. apply parsedSites_stages in H. destruct H as [mapped [Hmapped ->]].
  split; [now exists mapped |]. split; [| split; [| reflexivity]].
  - intros site Hin. apply filter_In in Hin. destruct Hin as [Hin Hkept].
    destruct (Forall2_In_r _ _ _ _ Hmapped Hin) as [record [Hrecord Hemitted]].
    apply filter_In in Hrecord. destruct Hrecord as [Hrecord Htype].
    now exists record.
  - intros record Hrecord Htype.
    destruct (Forall2_In_l _ _ _ record Hmapped) as [site [Hsite Hemitted]].
    { apply filter_In. now split. }
    exists site. split; [exact Hemitted |]. intro Hkept. apply filter_In. now split.
Qed.

(** C6.  Whenever the live pipeline produces its list, the list is what
    [to_live] makes of the records of [lives], in order, less the entries
    whose [name] or [url] is empty; it does so on every document object
    whose [lives] are a sequence of values other than [null], and produces
    the empty list when [lives] is absent.  [to_live]
    copies [name] and [url] and puts [''] for an absent [epg] or [ua]; no
    function of the platform takes part, so that a [url] is never
    unwrapped.  The record [{name:"L", url:"http://l"}] yields
    [{name:"L", url:"http://l", epg:'', ua:''}], and a [url] that carries the
    proxy marker is emitted as it is. *)
Theorem parsedLives_spec :
  (forall subscriptionData out,
      parsedLives subscriptionData = Normal out ->
      out = filter live_kept (map to_live (records subscriptionData "lives")))
  /\ (forall members lives,
        own_property members "lives" = Some (JArr lives) ->
        Forall (fun live => nullish live = false) lives ->
        parsedLives (JObj members) = Normal (filter live_kept (map to_live lives)))
  /\ (forall members,
        own_property members "lives" = None -> parsedLives (JObj members) = Normal [])
  /\ (forall members,
        own_property members "epg" = None ->
        live_epg (to_live (record members)) = JStr "")
  /\ (forall members,
        own_property members "ua" = None ->
        live_ua (to_live (record members)) = JStr "")
  /\ (forall live,
        live_kept (to_live live) = true ->
        live_name (to_live live) = field live "name"
        /\ live_url (to_live live) = field live "url")
  /\ parsedLives (lives_document [live_L]) = Normal [parsed_L]
  /\ parsedLives (lives_document [live_proxied])
     = Normal [mkLive (JStr "P") (JStr "http://host/api/cms-proxy?api=http%3A%2F%2Fl")
                 (JStr "") (JStr "")].
Proof.
  split; [exact parsedLives_stages |]. split; [| split; [| repeat split; try reflexivity]].
  - intros members lives Hmember Hlives.
    assert (records (JObj members) "lives" = lives) as Hrecords.
    { unfold records, field. cbn [get]. now rewrite Hmember. }
    rewrite <- Hrecords in Hlives |- *. apply parsedLives_completes; [reflexivity | | exact Hlives].
    unfold field. cbn [get]. rewrite Hmember. cbn [js_or truthy as_array].
    now rewrite Hrecords.
  - intros members Hmember. unfold parsedLives. cbn [get bind]. now rewrite Hmember.
  - intros members H. unfold to_live, field, record. simpl. now rewrite H.
  - intros members H. unfold to_live, field, record. simpl. now rewrite H.
  - apply live_kept_nonempty in H. destruct H as [Hname _].
    cbn [to_live live_name] in *. unfold js_or in *.
    destruct (truthy (field live "name")); [reflexivity | discriminate Hname].
  - apply live_kept_nonempty in H. destruct H as [_ [Hurl _]].
    cbn [to_live live_url] in *. unfold js_or in *.
    destruct (truthy (field live "url")); [reflexivity | discriminate Hurl].
Qed.

(** C10.  On every document the site extraction of the handler and
    [parseTVBoxSubscription] complete in the same way: with the same list of
    parsed sites, or with the same exception. *)
Theorem parseTVBoxSubscription_agrees (data : JsVal) :
  parsedSites data = parseTVBoxSubscription data.
Proof.
  unfold parsedSites, parseTVBoxSubscription. reflexivity.
Qed.

(** The site pipeline completes on a document whose [sites] are values other
    than [null] and for whose records of type 1 the effective [api] can be
    computed. *)
Lemma parsedSites_completes (sites : list JsVal) (mapped : list ParsedSite) :
  Forall (fun site => nullish site = false) sites ->
  array_map (fun site => apiUrl <- effective_api site ;; Normal (to_site site apiUrl))
    (filter type_is_one sites) = Normal mapped ->
  parsedSites (sites_document sites) = Normal (filter site_kept mapped).
Proof.
  intros Hsites Hmapped. unfold parsedSites. cbn [sites_document get own_property bind].
  change (own_property [] "sites") with (@None JsVal). cbn [String.eqb Ascii.eqb Bool.eqb].
  cbn [js_or truthy as_array bind].
  assert (array_filter (fun site => t <- get site "type" ;; Normal (strict_eq_one t)) sites
          = Normal (filter type_is_one sites)) as ->.
  { clear Hmapped. induction Hsites as [| x l Hx _ IH]; [reflexivity |].
    cbn [array_filter filter]. rewrite (get_field x _ Hx), IH. cbn [bind].
    unfold type_is_one. now destruct (strict_eq_one (field x "type")). }
  cbn [bind].
  assert (Forall (fun site => nullish site = false) (filter type_is_one sites)) as Hkept.
  { apply Forall_forall. intros x Hx. apply filter_In in Hx.
    rewrite Forall_forall in Hsites. now apply Hsites. }
  revert mapped Hmapped. induction Hkept as [| x l Hx _ IH]; intros mapped Hmapped.
  - cbn in Hmapped. injection Hmapped as <-. reflexivity.
  - cbn [array_map] in Hmapped.
    apply bind_Normal in Hmapped. destruct Hmapped as [y [Hy Hmapped]].
    apply bind_Normal in Hmapped. destruct Hmapped as [ys [Hys Hmapped]].
    injection Hmapped as <-.
    apply bind_Normal in Hy. destruct Hy as [apiUrl [HapiUrl Hy]]. injection Hy as <-.
    specialize (IH ys Hys).
    apply bind_Normal in IH. destruct IH as [ys' [Hys' IH]].
    cbn [array_map]. rewrite !(get_field x _ Hx). rewrite Hys'. clear Hys'.
    unfold effective_api in HapiUrl.
    destruct (includes (js_or (field x "api") (JStr "")) PROXY_MARKER) as [proxied |] eqn:Hinc;
      [| discriminate HapiUrl].
    cbn [bind] in HapiUrl |- *. rewrite Hinc. cbn [bind]. rewrite HapiUrl. cbn [bind].
    rewrite array_filter_pure in IH |- *. injection IH as IH.
    unfold to_site. cbn [filter]. now rewrite IH.
Qed.

End ParserProperties.

(* ================================================================== *)
(** ** The parser on the reference platform *)
(* ================================================================== *)

Lemma encode_step (c : ascii) (t : string) :
  all_chars plain (encodeURIComponent_ref (String c t))
  = all_chars plain (encodeURIComponent_ref t)
  /\ percent_decode (encodeURIComponent_ref (String c t))
     = String c (percent_decode (encodeURIComponent_ref t)).
Proof.
  destruct c as [[] [] [] [] [] [] [] []]; split; reflexivity.
Qed.

Lemma encode_plain (u : string) : all_chars plain (encodeURIComponent_ref u) = true.
Proof.
  induction u as [| c t IH]; [reflexivity |]. now rewrite (proj1 (encode_step c t)).
Qed.

Lemma decode_encode (u : string) : percent_decode (encodeURIComponent_ref u) = u.
Proof.
  induction u as [| c t IH]; [reflexivity |]. now rewrite (proj2 (encode_step c t)), IH.
Qed.

Lemma all_chars_weaken (p q : ascii -> bool) (s : string) :
  (forall c, p c = true -> q c = true) -> all_chars p s = true -> all_chars q s = true.
Proof.
  intro Hpq. induction s as [| c t IH]; simpl; [reflexivity |].
  rewrite !andb_true_iff. intros [Hc Ht]. split; [now apply Hpq | now apply IH].
Qed.

Lemma all_chars_append (p : ascii -> bool) (s t : string) :
  all_chars p (s ++ t) = all_chars p s && all_chars p t.
Proof.
  induction s as [| c s IH]; simpl; [reflexivity |]. now rewrite IH, andb_assoc.
Qed.

Lemma remove_none (p : ascii -> bool) (s : string) :
  all_chars (fun c => negb (p c)) s = true -> remove p s = s.
Proof.
  induction s as [| c t IH]; simpl; [reflexivity |].
  rewrite andb_true_iff, negb_true_iff. intros [-> Ht]. now rewrite IH.
Qed.

Lemma drop_while_none (p : ascii -> bool) (s : string) :
  all_chars (fun c => negb (p c)) s = true -> drop_while p s = s.
Proof.
  destruct s as [| c t]; simpl; [reflexivity |].
  rewrite andb_true_iff, negb_true_iff. now intros [-> _].
Qed.

Lemma split_first_none (p : ascii -> bool) (s : string) :
  all_chars (fun c => negb (p c)) s = true -> split_first p s = (s, None).
Proof.
  induction s as [| c t IH]; simpl; [reflexivity |].
  rewrite andb_true_iff, negb_true_iff. intros [-> Ht]. now rewrite IH.
Qed.

Lemma split_ampersand_none (s : string) :
  all_chars (fun c => negb (Ascii.eqb c "&")) s = true -> split_ampersand s = [s].
Proof.
  induction s as [| c t IH]; simpl; [reflexivity |].
  rewrite andb_true_iff, negb_true_iff. intros [-> Ht]. now rewrite IH.
Qed.

Lemma plus_to_space_none (s : string) :
  all_chars (fun c => negb (Ascii.eqb c "+")) s = true -> plus_to_space s = s.
Proof.
  induction s as [| c t IH]; simpl; [reflexivity |].
  rewrite andb_true_iff, negb_true_iff. intros [-> Ht]. now rewrite IH.
Qed.

Lemma reverse_onto_append (s acc : string) : reverse_onto s acc = reverse s ++ acc.
Proof.
  unfold reverse. revert acc. induction s as [| c t IH]; intro acc; simpl; [reflexivity |].
  rewrite (IH (String c acc)), (IH (String c EmptyString)), append_assoc. reflexivity.
Qed.

Lemma reverse_append (s t : string) : reverse (s ++ t) = reverse t ++ reverse s.
Proof.
  induction s as [| c s IH]; simpl.
  - induction (reverse t) as [| a r IHr]; simpl; [reflexivity | now rewrite <- IHr].
  - unfold reverse in *. simpl. rewrite !(reverse_onto_append _ (String c EmptyString)).
    fold (reverse (s ++ t)). unfold reverse. rewrite IH, append_assoc. reflexivity.
Qed.

Lemma reverse_involutive (s : string) : reverse (reverse s) = s.
Proof.
  induction s as [| c t IH]; [reflexivity |].
  unfold reverse at 2. simpl. rewrite reverse_onto_append, reverse_append, IH. reflexivity.
Qed.

Lemma all_chars_reverse (p : ascii -> bool) (s : string) :
  all_chars p (reverse s) = all_chars p s.
Proof.
  induction s as [| c t IH]; [reflexivity |].
  unfold reverse. simpl. rewrite reverse_onto_append, all_chars_append, IH. simpl.
  now rewrite andb_true_r, andb_comm.
Qed.

Lemma trim_none (p : ascii -> bool) (s : string) :
  all_chars (fun c => negb (p c)) s = true -> trim p s = s.
Proof.
  intro H. unfold trim. rewrite (drop_while_none p s H), drop_while_none.
  - apply reverse_involutive.
  - now rewrite all_chars_reverse.
Qed.

Lemma plain_not_space (c : ascii) : plain c = true -> negb (c0_or_space c) = true.
Proof. unfold plain. rewrite andb_true_iff. tauto. Qed.

Lemma plain_not_newline (c : ascii) :
  plain c = true -> negb (one_of [ascii_of_nat 9; ascii_of_nat 10; ascii_of_nat 13] c) = true.
Proof. destruct c as [[] [] [] [] [] [] [] []]; intro H; try reflexivity; discriminate H. Qed.

Lemma plain_not (x c : ascii) :
  one_of ["#"; "&"; "+"]%char x = true -> plain c = true -> negb (Ascii.eqb x c) = true.
Proof.
  intros Hx Hc. destruct (Ascii.eqb_spec x c) as [<- | _]; [| reflexivity].
  unfold plain in Hc. rewrite Hx in Hc. rewrite andb_comm in Hc. discriminate Hc.
Qed.

Lemma parse_url_wrap (original : string) :
  parse_url (wrap original)
  = Normal (mkURL "http" "host" "/api/cms-proxy"
              (Some ("api=" ++ encodeURIComponent_ref original)) None).
Proof.
  pose proof (encode_plain original) as He. unfold wrap.
  set (e := encodeURIComponent_ref original) in *. unfold parse_url, url_input.
  rewrite trim_none, remove_none.
  - change (url_split_scheme ("http://host/api/cms-proxy?api=" ++ e))
      with (Some ("http", "//host/api/cms-proxy?api=" ++ e)).
    cbv beta iota. unfold url_split_query.
    rewrite split_first_none.
    + reflexivity.
    + rewrite all_chars_append. apply andb_true_iff. split; [reflexivity |].
      revert He. apply all_chars_weaken. intros c Hc. now apply plain_not.
  - rewrite all_chars_append. apply andb_true_iff. split; [reflexivity |].
    revert He. apply all_chars_weaken, plain_not_newline.
  - rewrite all_chars_append. apply andb_true_iff. split; [reflexivity |].
    revert He. apply all_chars_weaken, plain_not_space.
Qed.

Lemma searchParams_get_wrap (original : string) :
  searchParams_get_ref
    (mkURL "http" "host" "/api/cms-proxy"
       (Some ("api=" ++ encodeURIComponent_ref original)) None) "api"
  = Some original.
Proof.
  pose proof (encode_plain original) as He.
  unfold searchParams_get_ref, form_pairs. cbn [url_query].
  rewrite split_ampersand_none.
  - cbn [filter String.eqb append Ascii.eqb Bool.eqb negb map].
    unfold form_pair.
    change (split_first (Ascii.eqb "=") _)
      with ("api", Some (encodeURIComponent_ref original)).
    cbv beta iota.
    rewrite (plus_to_space_none (encodeURIComponent_ref original)), decode_encode;
      [reflexivity |].
    revert He. apply all_chars_weaken. intros c Hc.
    rewrite Ascii.eqb_sym. now apply plain_not.
  - rewrite all_chars_append. apply andb_true_iff. split; [reflexivity |].
    revert He. apply all_chars_weaken. intros c Hc.
    rewrite Ascii.eqb_sym. now apply plain_not.
Qed.

Lemma decode_tokens_plain (s : string) :
  all_chars not_percent s = true ->
  decodeURIComponent_ref s = Normal s.
Proof.
  unfold decodeURIComponent_ref. induction s as [| c t IH]; [reflexivity |].
  cbn [all_chars]. unfold not_percent at 1. rewrite andb_true_iff, negb_true_iff. intros [Hc Ht].
  cbn [uri_tokens]. rewrite Hc. cbn [decode_tokens Nat.eqb]. now rewrite (IH Ht).
Qed.

Lemma includes_wrap (original : string) :
  includes (JStr (wrap original)) PROXY_MARKER = Normal true.
Proof. reflexivity. Qed.

(** The effective [api] of a wrapped address that is not empty and has no
    [%] is the address. *)
Lemma effective_api_wrap (site : JsVal) (original : string) :
  original <> "" ->
  all_chars not_percent original = true ->
  field site "api" = JStr (wrap original) ->
  effective_api site = Normal (JStr original).
Proof.
  intros Hne Hplain Hapi. unfold effective_api. rewrite Hapi.
  assert (js_or (JStr (wrap original)) (JStr "") = JStr (wrap original)) as -> by reflexivity.
  rewrite includes_wrap. cbn [bind].
  change (new_URL (JStr (wrap original))) with (parse_url (wrap original)).
  rewrite parse_url_wrap. cbn [bind try_catch].
  change (searchParams_get ?u ?k) with (searchParams_get_ref u k).
  rewrite searchParams_get_wrap. unfold truthy_param.
  rewrite (truthy_string_Some original Hne). cbn [string_value].
  change (decodeURIComponent original) with (decodeURIComponent_ref original).
  now rewrite (decode_tokens_plain original Hplain).
Qed.

(** An address with an escape of its own is decoded twice: once by
    [searchParams.get] and once by [decodeURIComponent]. *)
Example effective_api_decodes_twice :
  effective_api (record [("api", JStr (wrap "http://real.site/api?q=%41"))])
  = Normal (JStr "http://real.site/api?q=A").
Proof. vm_compute. reflexivity. Qed.

(** C2.  On the reference platform, a site record of type 1 whose [name] is
    not empty and whose [api] is ["http://host/api/cms-proxy?api="] followed
    by [encodeURIComponent("http://real.site/api")] is emitted with the [api]
    ["http://real.site/api"].  More generally the wrapper round-trips every
    address that is not empty and contains no [%]. *)
Theorem proxy_wrapper_round_trip (site : JsVal) :
  type_is_one site = true ->
  truthy (field site "name") = true ->
  (field site "api" = JStr wrapped_api ->
   parsedSites (sites_document [site]) = Normal [to_site site (JStr "http://real.site/api")])
  /\ (forall original,
        original <> "" -> all_chars not_percent original = true ->
        field site "api" = JStr (wrap original) ->
        parsedSites (sites_document [site]) = Normal [to_site site (JStr original)])
  /\ wrapped_api = "http://host/api/cms-proxy?api=http%3A%2F%2Freal.site%2Fapi".
Proof.
  intros Htype Hname.
  assert (nullish site = false) as Hsite.
  { destruct site; try reflexivity; discriminate Htype. }
  assert (forall original,
             original <> "" -> all_chars not_percent original = true ->
             field site "api" = JStr (wrap original) ->
             parsedSites (sites_document [site]) = Normal [to_site site (JStr original)])
    as Hgeneral.
  { intros original Hne Hplain Hapi.
    rewrite (parsedSites_completes [site] [to_site site (JStr original)]).
    - cbn [filter]. unfold site_kept, to_site. cbn [site_api site_name].
      unfold js_and, js_or. rewrite Hname.
      assert (truthy (JStr original) = true) as ->.
      { cbn [truthy]. now destruct (String.eqb_spec original ""). }
      now rewrite Hname.
    - now constructor.
    - cbn [filter]. rewrite Htype. cbn [array_map].
      now rewrite (effective_api_wrap site original Hne Hplain Hapi). }
  split; [| split; [exact Hgeneral | reflexivity]].
  intro Hapi. apply (Hgeneral "http://real.site/api"); [discriminate | reflexivity | exact Hapi].
Qed.

(* ================================================================== *)
(** ** Properties of the handler *)
(* ================================================================== *)

Section Handler.

Context {platform : Platform}.
Variable fetch : JsVal -> completion FetchResponse.

Lemma POST_missing_url (request : NextRequest) (url : JsVal) :
  request_url request = Normal url -> truthy url = false ->
  POST fetch request = ([], missing_url_response).
Proof.
  intros Hurl Hfalsy. unfold POST, POST_try. rewrite Hurl. cbn [bind].
  rewrite Hfalsy. reflexivity.
Qed.

Lemma POST_invalid_json (request : NextRequest) (url : JsVal) (response : FetchResponse)
  (e : JsError) :
  request_url request = Normal url -> truthy url = true ->
  fetch url = Normal response -> ok response = true ->
  string_includes "application/json" (contentType response) = false ->
  JSON_parse (body response) = Throw e ->
  POST fetch request = ([], invalid_json_response).
Proof.
  intros Hurl Htruthy Hfetch Hok Htype Hbody. unfold POST, POST_try.
  rewrite Hurl. cbn [bind]. rewrite Htruthy. cbn [negb].
  rewrite Hfetch. cbn [bind]. rewrite Hok. cbn [negb].
  rewrite Htype, Hbody. reflexivity.
Qed.

(** With a content type that declares JSON the failure of [response.json()]
    reaches the [catch] of the handler. *)
Lemma POST_declared_json (request : NextRequest) (url : JsVal) (response : FetchResponse)
  (e : JsError) :
  request_url request = Normal url -> truthy url = true ->
  fetch url = Normal response -> ok response = true ->
  string_includes "application/json" (contentType response) = true ->
  JSON_parse (body response) = Throw e ->
  POST fetch request
  = ([(ErrorLevel, "解析订阅失败: " ++ err_message e)], internal_error_response e).
Proof.
  intros Hurl Htruthy Hfetch Hok Htype Hbody. unfold POST, POST_try.
  rewrite Hurl. cbn [bind]. rewrite Htruthy. cbn [negb].
  rewrite Hfetch. cbn [bind]. rewrite Hok. cbn [negb].
  rewrite Htype, Hbody. reflexivity.
Qed.

(** C4 (as amended).  When the request is JSON whose [url] is absent or
    falsy, the handler answers with the 400 "missing URL" error.  When a URL
    is supplied, [fetch] answers with a 2xx status and a content type that
    does not contain [application/json], and the body is not JSON, the
    handler answers with the 400 "not valid JSON" error: a response that
    differs from the "missing URL" error, from every 500 response and from
    every success response. *)
Theorem POST_input_errors (request : NextRequest) :
  (forall url,
      request_url request = Normal url -> truthy url = false ->
      POST fetch request = ([], missing_url_response))
  /\ (forall url response e,
        request_url request = Normal url -> truthy url = true ->
        fetch url = Normal response -> ok response = true ->
        string_includes "application/json" (contentType response) = false ->
        JSON_parse (body response) = Throw e ->
        POST fetch request = ([], invalid_json_response))
  /\ response_status missing_url_response = 400%Z
  /\ response_status invalid_json_response = 400%Z
  /\ invalid_json_response <> missing_url_response
  /\ (forall e, invalid_json_response <> internal_error_response e)
  /\ (forall sites lives, invalid_json_response <> success_response sites lives).
Proof.
  split; [exact (POST_missing_url request) |].
  split; [exact (POST_invalid_json request) |].
  repeat split; try discriminate.
Qed.

End Handler.

(* ================================================================== *)
(** ** Runs on concrete inputs *)
(* ================================================================== *)

(** The handler from the request to the response, on the reference
    platform. *)
Example POST_A_B :
  POST fetch_A_B request_with_url = ([], success_response [parsed_A] [parsed_L]).
Proof. vm_compute. reflexivity. Qed.

(** C1, counterexample.  In a browser a non-empty [dbSiteBase] is not
    returned: the caller's origin is, or the origin of the page. *)
Lemma getBestAccessURL_browser_skips_dbSiteBase :
  let ctx := Browser "https://page.example" in
  let persisted := Some "https://db.example" in
  truthy_string persisted = true
  /\ snd (getBestAccessURL ctx (Some "https://caller.example") (Some 3000%float) persisted)
     = Normal "https://caller.example"
  /\ snd (getBestAccessURL ctx (Some "https://caller.example") (Some 3000%float) persisted)
     <> Normal "https://db.example"
  /\ snd (getBestAccessURL ctx None (Some 3000%float) persisted)
     = Normal "https://page.example".
Proof.
  cbv zeta. repeat split; try reflexivity. discriminate.
Qed.

Lemma getBestAccessURL_priority_witness :
  snd (getBestAccessURL (Server (Some "https://env.example")) (Some "https://caller.example")
         (Some 3000%float) (Some "https://db.example")) = Normal "https://env.example"
  /\ snd (getBestAccessURL (Server (Some "")) (Some "https://caller.example")
            (Some 3000%float) (Some "https://db.example")) = Normal "https://db.example"
  /\ snd (getBestAccessURL (Server None) (Some "https://caller.example")
            (Some 3000%float) None) = Normal "https://caller.example"
  /\ snd (getBestAccessURL (Browser "https://page.example") None
            (Some 3000%float) (Some "https://db.example")) = Normal "https://page.example"
  /\ snd (getBestAccessURL (Server None) (Some "") None None) = Normal DEFAULT_URL.
Proof.
  split; [| split; [| split; [| split]]].
  - apply (proj1 (getBestAccessURL_priority _ _ _ (Server (Some "https://env.example")))
             "https://env.example"); [reflexivity | discriminate].
  - apply (proj1 (proj2 (getBestAccessURL_priority _ _ _ (Server (Some ""))))
             (Some "") "https://db.example"); try reflexivity; discriminate.
  - apply (proj1 (proj2 (proj2 (getBestAccessURL_priority _ _ _ (Server None))))
             "https://caller.example"); try reflexivity; try discriminate.
    intros SITE_BASE H. injection H as <-. split; reflexivity.
  - apply (proj1 (proj2 (proj2 (proj2
             (getBestAccessURL_priority _ _ _ (Browser "https://page.example")))))
             "https://page.example"); reflexivity.
  - apply (proj2 (proj2 (proj2 (proj2 (getBestAccessURL_priority _ _ _ (Server None)))))
             None); reflexivity.
Defined.

Lemma parsed_entries_nonempty_witness :
  Forall site_nonempty [parsed_A] /\ Forall live_nonempty [parsed_L].
Proof.
  split.
  - apply (proj1 (parsed_entries_nonempty document_A_B) [parsed_A]). reflexivity.
  - apply (proj1 (proj2 (parsed_entries_nonempty (lives_document [live_L]))) [parsed_L]).
    reflexivity.
Defined.

(** C5, counterexample.  A record of type 1 whose [name] is empty is not
    kept. *)
Lemma parsedSites_drops_unnamed_type_1 :
  type_is_one site_unnamed = true
  /\ In site_unnamed (records (sites_document [site_unnamed]) "sites")
  /\ parsedSites (sites_document [site_unnamed]) = Normal [].
Proof.
  repeat split; try reflexivity. now left.
Qed.

Lemma parsedSites_type_1_and_valid_witness :
  parsedSites document_A_B = Normal [parsed_A]
  /\ exists record, In record (records document_A_B "sites")
                    /\ type_is_one record = true /\ emitted record parsed_A
                    /\ site_kept parsed_A = true.
Proof.
  split; [reflexivity |].
  apply (proj1 (proj2 (parsedSites_type_1_and_valid document_A_B [parsed_A] eq_refl))).
  now left.
Defined.

Lemma parsedLives_spec_witness :
  parsedLives (lives_document [live_L; JObj []]) = Normal [parsed_L]
  /\ live_epg (to_live live_L) = JStr "".
Proof.
  split.
  - apply (proj1 (proj2 parsedLives_spec) [("lives", JArr [live_L; JObj []])]
             [live_L; JObj []] eq_refl).
    repeat constructor.
  - apply (proj1 (proj2 (proj2 (proj2 parsedLives_spec)))). reflexivity.
Defined.

Lemma proxy_wrapper_round_trip_witness :
  parsedSites (sites_document [site_wrapped])
  = Normal [mkSite (JStr "Real") (JStr "real") (JStr "http://real.site/api") (JStr "")].
Proof.
  apply (proj1 (proxy_wrapper_round_trip site_wrapped eq_refl eq_refl)). reflexivity.
Defined.

(** C4, counterexample.  The body is not JSON, the content type says it is:
    the handler answers 500 with the message of the parser, not with the
    "not valid JSON" error. *)
Lemma POST_declared_json_internal_fault :
  request_url request_with_url = Normal (JStr "http://sub.example/tvbox.json")
  /\ JSON_parse "<html>moved</html>" = Throw not_json
  /\ POST fetch_html_declared_json request_with_url
     = ([(ErrorLevel, "解析订阅失败: Unexpected token in JSON")],
        internal_error_response not_json)
  /\ response_status (snd (POST fetch_html_declared_json request_with_url)) = 500%Z
  /\ snd (POST fetch_html_declared_json request_with_url) <> invalid_json_response.
Proof.
  repeat split; try (vm_compute; reflexivity). vm_compute. discriminate.
Qed.

Lemma POST_input_errors_witness :
  POST fetch_html request_without_url = ([], missing_url_response)
  /\ POST fetch_html request_with_url = ([], invalid_json_response).
Proof.
  split.
  - apply (proj1 (POST_input_errors fetch_html request_without_url) JUndefined);
      reflexivity.
  - apply (proj1 (proj2 (POST_input_errors fetch_html request_with_url))
             (JStr "http://sub.example/tvbox.json")
             (mkFetchResponse 200 "OK" (Some "text/html") "<html>moved</html>")
             not_json);
      reflexivity.
Defined.

(* ================================================================== *)
(** ** Properties of the address probes *)
(* ================================================================== *)

Section LocalProbe.

Variable interfaces : Interfaces.

Lemma interface_named_In (name : string) (iface : list NetworkInterfaceInfo) :
  interface_named interfaces name = Some iface -> In (name, iface) interfaces.
Proof.
  unfold interface_named.
  destruct (find (fun entry => fst entry =? name) interfaces) as [[n i] |] eqn:Hfind;
    [| discriminate].
  intro H. injection H as <-. apply find_some in Hfind. destruct Hfind as [Hin Hname].
  apply String.eqb_eq in Hname. simpl in Hname. now subst n.
Qed.

Lemma In_interface_named (name : string) (iface : list NetworkInterfaceInfo) :
  NoDup (map fst interfaces) -> In (name, iface) interfaces ->
  interface_named interfaces name = Some iface.
Proof.
  unfold interface_named. induction interfaces as [| [n i] l IH]; simpl; [contradiction |].
  intros Hnodup Hin. inversion Hnodup as [| ? ? Hfresh Hrest]; subst.
  destruct Hin as [Heq | Hin].
  - injection Heq as -> ->. now rewrite String.eqb_refl.
  - destruct (String.eqb_spec n name) as [-> | _]; [| now apply IH].
    exfalso. apply Hfresh. apply (in_map fst) in Hin. exact Hin.
Qed.

(** What the nested loops return: the first address of the first name, in
    the order of [names], whose interface has an external IPv4 address. *)
Lemma first_external_Some (names : list string) (found : string * string) :
  first_external interfaces names = Some found ->
  exists before after iface addr,
    names = (before ++ snd found :: after)%list
    /\ (forall n iface0, In n before -> interface_named interfaces n = Some iface0 ->
                         find external_IPv4 iface0 = None)
    /\ interface_named interfaces (snd found) = Some iface
    /\ find external_IPv4 iface = Some addr
    /\ fst found = address addr.
Proof.
  induction names as [| name rest IH]; simpl; [discriminate |]. intro H.
  destruct (interface_named interfaces name) as [iface |] eqn:Hiface.
  - destruct (find external_IPv4 iface) as [addr |] eqn:Haddr.
    + injection H as <-. exists [], rest, iface, addr. simpl.
      repeat split; try assumption; try reflexivity. intros n i [].
    + destruct (IH H) as [before [after [iface' [addr' [-> [Hbefore Hrest]]]]]].
      exists (name :: before), after, iface', addr'. split; [reflexivity |].
      split; [| exact Hrest]. intros n i [<- | Hn] Hi.
      * rewrite Hiface in Hi. injection Hi as <-. exact Haddr.
      * now apply (Hbefore n).
  - destruct (IH H) as [before [after [iface' [addr' [-> [Hbefore Hrest]]]]]].
    exists (name :: before), after, iface', addr'. split; [reflexivity |].
    split; [| exact Hrest]. intros n i [<- | Hn] Hi.
    + rewrite Hiface in Hi. discriminate Hi.
    + now apply (Hbefore n).
Qed.

Lemma first_external_None (names : list string) :
  first_external interfaces names = None ->
  forall name iface, In name names -> interface_named interfaces name = Some iface ->
                     find external_IPv4 iface = None.
Proof.
  induction names as [| n rest IH]; simpl; [intros _ ? ? [] |].
  intros H name iface [<- | Hin] Hiface.
  - rewrite Hiface in H. now destruct (find external_IPv4 iface).
  - destruct (interface_named interfaces n) as [i |]; [| now apply (IH H name)].
    destruct (find external_IPv4 i); [discriminate | now apply (IH H name)].
Qed.

Lemma found_is_external (found : string * string) (names : list string) :
  first_external interfaces names = Some found ->
  exists name iface addr,
    In (name, iface) interfaces /\ In addr iface
    /\ family addr = "IPv4" /\ internal addr = false /\ address addr = fst found.
Proof.
  intro H. apply first_external_Some in H.
  destruct H as [_ [_ [iface [addr [_ [_ [Hiface [Haddr Hfst]]]]]]]].
  apply find_some in Haddr. destruct Haddr as [Hin Hext].
  unfold external_IPv4 in Hext. apply andb_true_iff in Hext. destruct Hext as [Hfamily Hint].
  apply String.eqb_eq in Hfamily. apply negb_true_iff in Hint.
  exists (snd found), iface, addr. repeat split; auto using interface_named_In.
Qed.

(** X1.  On the server, an address that [getLocalNetworkIP] returns is the
    address of an IPv4, non-internal entry of one of the interfaces; and when
    it returns [null] although the table could be read, no interface has such
    an entry. *)
Theorem getLocalNetworkIP_external_IPv4 :
  NoDup (map fst interfaces) ->
  match snd (getLocalNetworkIP (NodeOS (Normal interfaces))) with
  | Some ip =>
      exists name iface addr,
        In (name, iface) interfaces /\ In addr iface
        /\ family addr = "IPv4" /\ internal addr = false /\ address addr = ip
  | None =>
      forall name iface addr,
        In (name, iface) interfaces -> In addr iface -> family addr = "IPv4" ->
        internal addr = true
  end.
Proof.
  intro Hnodup. unfold getLocalNetworkIP.
  destruct (first_external interfaces priorityOrder) as [found |] eqn:Hpriority.
  - cbn [console_log snd fst]. now apply (found_is_external found priorityOrder).
  - destruct (first_external interfaces (map fst interfaces)) as [found |] eqn:Hall.
    + cbn [console_log snd fst]. now apply (found_is_external found (map fst interfaces)).
    + cbn [console_warn snd]. intros name iface addr Hin Haddr Hfamily.
      pose proof (first_external_None _ Hall name iface) as Hnone.
      specialize (Hnone (in_map fst _ _ Hin) (In_interface_named _ _ Hnodup Hin)).
      pose proof (find_none _ _ Hnone addr Haddr) as Hext.
      unfold external_IPv4 in Hext. rewrite Hfamily in Hext. cbn in Hext.
      now apply negb_false_iff in Hext.
Qed.

(** X2.  When an interface of the priority list has an external IPv4
    address, the answer is the first such address of the first such
    interface in the order of the list, wherever the interfaces stand in the
    table; the console gets one line, naming the address and the
    interface. *)
Theorem getLocalNetworkIP_priority (name : string) (iface : list NetworkInterfaceInfo)
  (addr : NetworkInterfaceInfo) :
  In name priorityOrder ->
  interface_named interfaces name = Some iface ->
  find external_IPv4 iface = Some addr ->
  exists before chosen after iface' addr',
    priorityOrder = (before ++ chosen :: after)%list
    /\ (forall n iface0, In n before -> interface_named interfaces n = Some iface0 ->
                         find external_IPv4 iface0 = None)
    /\ interface_named interfaces chosen = Some iface'
    /\ find external_IPv4 iface' = Some addr'
    /\ getLocalNetworkIP (NodeOS (Normal interfaces))
       = ([(LogLevel, found_message (address addr', chosen))], Some (address addr')).
Proof.
  intros Hname Hiface Haddr. unfold getLocalNetworkIP.
  destruct (first_external interfaces priorityOrder) as [[ip chosen] |] eqn:Hpriority.
  - destruct (first_external_Some _ _ Hpriority)
      as [before [after [iface' [addr' [Hsplit [Hbefore [Hiface' [Haddr' Hip]]]]]]]].
    cbn [fst snd] in *. subst ip.
    exists before, chosen, after, iface', addr'. repeat split; assumption.
  - pose proof (first_external_None _ Hpriority name iface Hname Hiface) as Hnone.
    rewrite Hnone in Haddr. discriminate Haddr.
Qed.

End LocalProbe.

Section PublicProbe.

Context {platform : Platform}.

Lemma service_answer_Some (response : FetchResponse) (ip : JsVal) :
  service_answer response = Some ip ->
  ok response = true /\ truthy ip = true
  /\ ((exists json, JSON_parse (body response) = Normal json /\ get json "ip" = Normal ip)
      \/ ((exists e, (json <- JSON_parse (body response) ;; get json "ip") = Throw e)
          /\ ip = JStr (js_trim (body response))
          /\ digits_and_dots (js_trim (body response)) = true)).
Proof.
  unfold service_answer. destruct (ok response); [| discriminate]. intro H.
  split; [reflexivity |].
  destruct (json <- JSON_parse (body response) ;; get json "ip") as [v | e] eqn:Hjson.
  - destruct (truthy v) eqn:Hv; [| discriminate]. injection H as <-.
    split; [exact Hv |]. left. apply bind_Normal in Hjson. exact Hjson.
  - destruct (truthy (JStr (js_trim (body response)))) eqn:Hip; [| discriminate].
    destruct (digits_and_dots (js_trim (body response))) eqn:Hdigits; [| discriminate].
    injection H as <-. split; [exact Hip |]. right. split; [now exists e | now split].
Qed.

Lemma probe_passes (fetch : JsVal -> completion FetchResponse) (before rest : list string) :
  (forall s, In s before -> passes fetch s) ->
  snd (probe fetch (before ++ rest)%list) = snd (probe fetch rest).
Proof.
  induction before as [| s before IH]; intro H; [reflexivity |].
  cbn [app probe]. pose proof (H s (or_introl eq_refl)) as Hs. unfold passes in Hs.
  destruct (fetch (JStr s)) as [response | e].
  - rewrite Hs. apply IH. intros s' Hs'. apply H. now right.
  - cbn [console_warn snd]. apply IH. intros s' Hs'. apply H. now right.
Qed.

Lemma probe_agree (fetch fetch' : JsVal -> completion FetchResponse) (before : list string)
  (service : string) (after after' : list string) (response : FetchResponse) (ip : JsVal) :
  (forall s, In s (before ++ [service])%list -> fetch' (JStr s) = fetch (JStr s)) ->
  fetch (JStr service) = Normal response -> service_answer response = Some ip ->
  probe fetch' (before ++ service :: after')%list = probe fetch (before ++ service :: after)%list.
Proof.
  intros Hagree Hfetch Hanswer. induction before as [| s before IH].
  - cbn [app probe]. rewrite (Hagree service (or_introl eq_refl)), Hfetch, Hanswer. reflexivity.
  - cbn [app probe]. rewrite (Hagree s (or_introl eq_refl)).
    assert (probe fetch' (before ++ service :: after')%list
            = probe fetch (before ++ service :: after)%list) as ->.
    { apply IH. intros s' Hs'. apply Hagree. now right. }
    reflexivity.
Qed.

(** X3.  The services are asked in order and the first one that answers
    decides: when the services before it pass (their [fetch] throws, or their
    response yields nothing), [getPublicIP] returns its answer; and it then
    returns the same, with the same console output, for any other network
    that behaves alike on the services up to that one, so that the services
    after it do not matter. *)
Theorem getPublicIP_first_answer (fetch fetch' : JsVal -> completion FetchResponse)
  (before : list string) (service : string) (after : list string)
  (response : FetchResponse) (ip : JsVal) :
  services = (before ++ service :: after)%list ->
  (forall s, In s before -> passes fetch s) ->
  fetch (JStr service) = Normal response ->
  service_answer response = Some ip ->
  (forall s, In s (before ++ [service])%list -> fetch' (JStr s) = fetch (JStr s)) ->
  snd (getPublicIP fetch) = Some ip /\ getPublicIP fetch' = getPublicIP fetch.
Proof.
  intros Hsplit Hbefore Hfetch Hanswer Hagree. unfold getPublicIP. rewrite Hsplit. split.
  - rewrite (probe_passes fetch before _ Hbefore). cbn [probe].
    rewrite Hfetch, Hanswer. reflexivity.
  - now apply (probe_agree fetch fetch' before service after after response ip).
Qed.

Lemma probe_result (fetch : JsVal -> completion FetchResponse) (remaining : list string) :
  match snd (probe fetch remaining) with
  | Some ip =>
      exists service response,
        In service remaining /\ fetch (JStr service) = Normal response
        /\ service_answer response = Some ip
  | None => forall service, In service remaining -> passes fetch service
  end.
Proof.
  induction remaining as [| s rest IH]; cbn [probe].
  - cbn. intros service [].
  - destruct (fetch (JStr s)) as [response | e] eqn:Hfetch.
    + destruct (service_answer response) as [ip |] eqn:Hanswer.
      * cbn [console_log snd]. exists s, response. repeat split; [now left | assumption ..].
      * destruct (snd (probe fetch rest)) as [ip |].
        -- destruct IH as [service [r [Hin H]]]. exists service, r. split; [now right | exact H].
        -- intros service [<- | Hin]; [| now apply IH].
           unfold passes. now rewrite Hfetch.
    + cbn [console_warn snd]. destruct (snd (probe fetch rest)) as [ip |].
      * destruct IH as [service [r [Hin H]]]. exists service, r. split; [now right | exact H].
      * intros service [<- | Hin]; [| now apply IH].
        unfold passes. now rewrite Hfetch.
Qed.

(** X4.  What [getPublicIP] returns comes from a 2xx response of one of the
    three services and is truthy: it is the member [ip] of the body read as
    JSON, whatever its type, or, when reading it as JSON throws, the trimmed
    body, which then consists of digits and dots.  It returns [null] exactly
    when every service passes. *)
Theorem getPublicIP_result (fetch : JsVal -> completion FetchResponse) :
  match snd (getPublicIP fetch) with
  | Some ip =>
      exists service response,
        In service services /\ fetch (JStr service) = Normal response
        /\ ok response = true /\ truthy ip = true
        /\ ((exists json, JSON_parse (body response) = Normal json
                          /\ get json "ip" = Normal ip)
            \/ ((exists e, (json <- JSON_parse (body response) ;; get json "ip") = Throw e)
                /\ ip = JStr (js_trim (body response))
                /\ digits_and_dots (js_trim (body response)) = true))
  | None => forall service, In service services -> passes fetch service
  end.
Proof.
  unfold getPublicIP. pose proof (probe_result fetch services) as H.
  destruct (snd (probe fetch services)) as [ip |]; [| exact H].
  destruct H as [service [response [Hin [Hfetch Hanswer]]]].
  exists service, response. split; [exact Hin |]. split; [exact Hfetch |].
  now apply service_answer_Some.
Qed.

End PublicProbe.

(* ================================================================== *)
(** ** Properties of the network-info route *)
(* ================================================================== *)

Lemma append_cancel_l (p a b : string) : p ++ a = p ++ b -> a = b.
Proof.
  induction p as [| c p IH]; simpl; [trivial |]. intro H. injection H as H. now apply IH.
Qed.

(** X5.  The recommendation and [getBestAccessURL] agree: whenever
    [getRecommendation] says that the subscription links will use an address
    (the one of the environment variable, or the one of the site
    configuration), [getBestAccessURL] returns that address on the server,
    whatever the caller's origin and the port are. *)
Theorem recommendation_announces_best (localIP : option string) (publicIP : option JsVal)
  (siteBase dbSiteBase currentOrigin : option string) (port : option float) (addr : string) :
  getRecommendation localIP publicIP siteBase dbSiteBase = announce_env addr
  \/ getRecommendation localIP publicIP siteBase dbSiteBase = announce_db addr ->
  snd (getBestAccessURL (Server siteBase) currentOrigin port dbSiteBase) = Normal addr.
Proof.
  unfold getRecommendation, getBestAccessURL.
  destruct (truthy_string siteBase) eqn:Henv.
  - intros [H | H].
    + apply append_cancel_l in H. now rewrite H.
    + discriminate H.
  - destruct (truthy_string dbSiteBase) eqn:Hdb.
    + intros [H | H].
      * discriminate H.
      * apply append_cancel_l in H. now rewrite H.
    + destruct (truthy_string localIP && starts_with "172." (string_value localIP));
        [intros [H | H]; discriminate H |].
      destruct (truthy_string localIP && starts_with "192.168." (string_value localIP));
        [intros [H | H]; discriminate H |].
      destruct (truthy (or_null publicIP)); intros [H | H]; discriminate H.
Qed.

Lemma getBestAccessURL_server (SITE_BASE dbSiteBase : option string) (origin : string)
  (port : option float) :
  snd (getBestAccessURL (Server SITE_BASE) (Some origin) port dbSiteBase)
  = Normal (first_configured SITE_BASE dbSiteBase origin).
Proof.
  unfold getBestAccessURL, first_configured, clientAddress.
  destruct (truthy_string SITE_BASE); [reflexivity |].
  destruct (truthy_string dbSiteBase); [reflexivity |].
  cbn [console_log snd]. now destruct (truthy_string (Some origin)).
Qed.

(** X6.  For a logged-in user and a configuration that loads, the
    network-info route answers 200 with [Cache-Control: no-store]; the
    [bestURL] it reports is [SITE_BASE] if that is set, else the [SiteBase]
    of the configuration if that is set, else the origin of the request:
    neither the addresses that the two probes find nor [PORT] enter it.  The
    [recommendation] it reports is computed from the probes' results and the
    same two settings. *)
Theorem network_info_bestURL {platform : Platform} (authInfo : option AuthInfo)
  (probeContext : ProbeContext) (fetch : JsVal -> completion FetchResponse)
  (PORT SITE_BASE dbSiteBase : option string) (origin user : string) :
  logged_in authInfo = Some user ->
  let answer :=
    snd (NetworkInfoRoute.GET authInfo probeContext fetch PORT SITE_BASE
           (Normal dbSiteBase) origin) in
  response_status (route_response answer) = 200%Z
  /\ cache_control answer = Some "no-store"
  /\ get (payload (route_response answer)) "bestURL"
     = Normal (JStr (first_configured SITE_BASE dbSiteBase origin))
  /\ get (payload (route_response answer)) "recommendation"
     = Normal (JStr (getRecommendation (snd (getLocalNetworkIP probeContext))
                       (snd (getPublicIP fetch)) SITE_BASE dbSiteBase)).
Proof.
  intros Hlogin. cbv zeta. unfold NetworkInfoRoute.GET. rewrite Hlogin.
  unfold and_then. cbn [snd].
  rewrite (getBestAccessURL_server SITE_BASE dbSiteBase origin).
  cbn [snd]. repeat split.
Qed.

(* ================================================================== *)
(** ** Properties of the subscription-link route *)
(* ================================================================== *)

Lemma split_ampersand_first (a b : string) :
  all_chars (fun c => negb (Ascii.eqb c "&")) a = true ->
  split_ampersand (a ++ String "&" b) = a :: split_ampersand b.
Proof.
  induction a as [| c a IH]; simpl; [reflexivity |].
  rewrite andb_true_iff, negb_true_iff. intros [-> Ha]. now rewrite (IH Ha).
Qed.

Lemma plain_not_ampersand (s : string) :
  all_chars plain s = true -> all_chars (fun c => negb (Ascii.eqb c "&")) s = true.
Proof.
  apply all_chars_weaken. intros c Hc. rewrite Ascii.eqb_sym. now apply plain_not.
Qed.

Lemma plain_not_plus (s : string) :
  all_chars plain s = true -> all_chars (fun c => negb (Ascii.eqb c "+")) s = true.
Proof.
  apply all_chars_weaken. intros c Hc. rewrite Ascii.eqb_sym. now apply plain_not.
Qed.

Lemma form_pairs_subscribe_query (subscribeToken : string) (adFilter : bool) :
  form_pairs (subscribe_query subscribeToken adFilter)
  = [("token", subscribeToken); ("adFilter", if adFilter then "true" else "false")].
Proof.
  pose proof (encode_plain subscribeToken) as He.
  unfold form_pairs, subscribe_query.
  change ("token=" ++ encodeURIComponent_ref subscribeToken
          ++ "&adFilter=" ++ (if adFilter then "true" else "false"))
    with (("token=" ++ encodeURIComponent_ref subscribeToken)
          ++ String "&" ("adFilter=" ++ (if adFilter then "true" else "false"))).
  - rewrite split_ampersand_first.
    + assert (split_ampersand ("adFilter=" ++ (if adFilter then "true" else "false"))
              = ["adFilter=" ++ (if adFilter then "true" else "false")]) as ->
        by now destruct adFilter.
      cbn [filter]. 
      assert (forall x, (("token=" ++ x) =? "") = false) as Hne by reflexivity.
      rewrite Hne. cbn [negb].
      assert ((("adFilter=" ++ (if adFilter then "true" else "false")) =? "") = false) as ->
        by now destruct adFilter.
      cbn [negb map]. f_equal.
      * unfold form_pair.
        change (split_first (Ascii.eqb "=") ("token=" ++ encodeURIComponent_ref subscribeToken))
          with ("token", Some (encodeURIComponent_ref subscribeToken)).
        cbv beta iota.
        rewrite (plus_to_space_none (encodeURIComponent_ref subscribeToken)), decode_encode;
          [reflexivity | now apply plain_not_plus].
      * now destruct adFilter.
    + rewrite all_chars_append. apply andb_true_iff. split; [reflexivity |].
      now apply plain_not_ampersand.
Qed.

Lemma split_first_append (p : ascii -> bool) (a : string) (c : ascii) (b : string) :
  all_chars (fun x => negb (p x)) a = true -> p c = true ->
  split_first p (a ++ String c b) = (a, Some b).
Proof.
  intros Ha Hc. induction a as [| x a IH]; simpl.
  - now rewrite Hc.
  - simpl in Ha. apply andb_true_iff in Ha. destruct Ha as [Hx Ha].
    apply negb_true_iff in Hx. now rewrite Hx, (IH Ha).
Qed.

Lemma subscribe_query_no_fragment (subscribeToken : string) (adFilter : bool) :
  all_chars (fun c => negb (Ascii.eqb "#" c)) (subscribe_query subscribeToken adFilter) = true.
Proof.
  unfold subscribe_query. rewrite !all_chars_append.
  assert (all_chars (fun c => negb (Ascii.eqb "#" c)) (encodeURIComponent_ref subscribeToken)
          = true) as ->.
  { generalize (encode_plain subscribeToken). apply all_chars_weaken.
    intros c Hc. now apply plain_not. }
  now destruct adFilter.
Qed.

Lemma subscribeUrl_shape (baseUrl subscribeToken : string) (adFilter : bool) :
  SubscribeRoute.subscribeUrl baseUrl subscribeToken adFilter
  = (baseUrl ++ "/api/tvbox/subscribe") ++ String "?" (subscribe_query subscribeToken adFilter).
Proof.
  unfold SubscribeRoute.subscribeUrl, subscribe_query. now rewrite append_assoc.
Qed.

(** X7.  The subscription link carries the token intact: whatever
    characters the token has, the text after the first [?] of the link is a
    query whose pairs are exactly [token], with the token as its value, and
    [adFilter], with [true] or [false], provided the base address has no [?]
    and no [#].  With the default base address the link parses as a URL
    whose [searchParams] give the token back. *)
Theorem subscribeUrl_parameters (baseUrl subscribeToken : string) (adFilter : bool) :
  all_chars not_query_delimiter baseUrl = true ->
  url_split_query (SubscribeRoute.subscribeUrl baseUrl subscribeToken adFilter)
  = (baseUrl ++ "/api/tvbox/subscribe", Some (subscribe_query subscribeToken adFilter), None)
  /\ form_pairs (subscribe_query subscribeToken adFilter)
     = [("token", subscribeToken); ("adFilter", if adFilter then "true" else "false")]
  /\ (u <- parse_url (SubscribeRoute.subscribeUrl DEFAULT_URL subscribeToken adFilter) ;;
      Normal (searchParams_get_ref u "token", searchParams_get_ref u "adFilter"))
     = Normal (Some subscribeToken, Some (if adFilter then "true" else "false")).
Proof.
  intro Hbase.
  assert (forall base,
             all_chars not_query_delimiter base = true ->
             url_split_query (SubscribeRoute.subscribeUrl base subscribeToken adFilter)
             = (base ++ "/api/tvbox/subscribe",
                Some (subscribe_query subscribeToken adFilter), None)) as Hsplit.
  { intros base Hb. unfold url_split_query. rewrite subscribeUrl_shape.
    rewrite split_first_none.
    - rewrite split_first_append; [reflexivity | | reflexivity].
      rewrite all_chars_append. apply andb_true_iff. split; [| reflexivity].
      revert Hb. apply all_chars_weaken. intros c Hc. unfold not_query_delimiter in Hc.
      cbn [one_of existsb] in Hc. rewrite Ascii.eqb_sym.
      destruct (Ascii.eqb c "?"); [discriminate Hc | reflexivity].
    - rewrite !all_chars_append. cbn [all_chars].
      rewrite subscribe_query_no_fragment.
      assert (all_chars (fun c => negb (Ascii.eqb "#" c)) base = true) as ->.
      { revert Hb. apply all_chars_weaken. intros c Hc. unfold not_query_delimiter in Hc.
        cbn [one_of existsb] in Hc. rewrite Ascii.eqb_sym.
        destruct (Ascii.eqb c "#"); [| reflexivity].
        rewrite orb_true_r in Hc. discriminate Hc. }
      reflexivity. }
  split; [now apply Hsplit |]. split; [apply form_pairs_subscribe_query |].
  unfold parse_url, url_input.
  assert (all_chars (fun c => negb (c0_or_space c))
            (SubscribeRoute.subscribeUrl DEFAULT_URL subscribeToken adFilter) = true) as Hspace.
  { unfold SubscribeRoute.subscribeUrl. rewrite !all_chars_append.
    assert (all_chars (fun c => negb (c0_or_space c)) (encodeURIComponent_ref subscribeToken)
            = true) as ->.
    { generalize (encode_plain subscribeToken). apply all_chars_weaken, plain_not_space. }
    now destruct adFilter. }
  rewrite trim_none, remove_none; [| | exact Hspace].
  - change (url_split_scheme (SubscribeRoute.subscribeUrl DEFAULT_URL subscribeToken adFilter))
      with (Some ("http", SubscribeRoute.subscribeUrl "//localhost:3000" subscribeToken adFilter)).
    cbv beta iota. rewrite (Hsplit "//localhost:3000" eq_refl).
    cbn [bind special_scheme existsb String.eqb Ascii.eqb Bool.eqb orb].
    change (url_authority "http" ("//localhost:3000" ++ "/api/tvbox/subscribe"))
      with (Normal ("localhost", "/api/tvbox/subscribe")).
    cbn [bind fst snd]. unfold searchParams_get_ref. cbn [url_query].
    rewrite form_pairs_subscribe_query. now destruct adFilter.
  - revert Hspace. apply all_chars_weaken. intros c Hc.
    destruct c as [[] [] [] [] [] [] [] []]; try reflexivity; discriminate Hc.
Qed.

(** X8.  For a logged-in user, with the feature enabled and a token set, the
    subscription-link route answers with the link built on [SITE_BASE] if
    that is set, else on the [SiteBase] of the configuration if that is set,
    else on the [origin] parameter of the request if it has one, else on the
    origin of the request itself: the address that the client sends is used
    only when neither setting exists. *)
Theorem subscribe_link_base {platform : Platform} (authInfo : option AuthInfo)
  (ENABLE_TVBOX_SUBSCRIBE TVBOX_SUBSCRIBE_TOKEN PORT SITE_BASE : option string)
  (nextUrl : URL) (origin : string) (dbSiteBase : option string) (user token : string) :
  logged_in authInfo = Some user ->
  ENABLE_TVBOX_SUBSCRIBE = Some "true" ->
  TVBOX_SUBSCRIBE_TOKEN = Some token -> token <> "" ->
  let clientOrigin := searchParams_get nextUrl "origin" in
  snd (SubscribeRoute.GET authInfo ENABLE_TVBOX_SUBSCRIBE TVBOX_SUBSCRIBE_TOKEN PORT
         SITE_BASE nextUrl origin (Normal dbSiteBase))
  = Normal (no_store
              (JObj [("enabled", JBool true);
                     ("url",
                      JStr (SubscribeRoute.subscribeUrl
                              (first_configured SITE_BASE dbSiteBase
                                 (if truthy_string clientOrigin
                                  then string_value clientOrigin else origin))
                              token
                              (SubscribeRoute.is_true (searchParams_get nextUrl "adFilter"))))])).
Proof.
  intros Hlogin -> -> Htoken. cbv zeta. unfold SubscribeRoute.GET. rewrite Hlogin.
  cbn [SubscribeRoute.is_true String.eqb Ascii.eqb Bool.eqb negb orb].
  rewrite (truthy_string_Some token Htoken). cbn [negb].
  unfold and_then. cbn [snd]. rewrite getBestAccessURL_server. reflexivity.
Qed.

(* ================================================================== *)
(** ** Properties of admin-auth.ts *)
(* ================================================================== *)

Section AdminChecks.

Variables NEXT_PUBLIC_STORAGE_TYPE USERNAME : option string.
Variable authInfo : option AuthInfo.
Variable getUserInfoV2 : string -> completion (option UserInfo).
Variable getConfig : completion (list UserInfo).

Lemma admin_in_good_standing (u : UserInfo) :
  (role u =? "admin") && negb (banned u) = true <-> role u = "admin" /\ banned u = false.
Proof.
  rewrite andb_true_iff, String.eqb_eq, negb_true_iff. tauto.
Qed.

Lemma lookup_admin_granted (username granted_name : string) (granted : AdminRole) :
  lookup_admin getUserInfoV2 getConfig username = Normal (AdminGranted granted_name granted)
  <-> granted_name = username /\ granted = admin /\ listed_admin getUserInfoV2 getConfig username.
Proof.
  unfold lookup_admin, listed_admin. split.
  - intro H. destruct (getUserInfoV2 username) as [[info |] | e]; cbn [bind] in H;
      [| | discriminate H].
    + destruct ((role info =? "admin") && negb (banned info)) eqn:Hinfo; [| discriminate H].
      injection H as <- <-. apply admin_in_good_standing in Hinfo.
      repeat split. left. now exists info.
    + destruct getConfig as [config | e]; cbn [bind] in H; [| discriminate H].
      destruct (find (fun u => user_name u =? username) config) as [user |] eqn:Hfind;
        [| discriminate H].
      destruct ((role user =? "admin") && negb (banned user)) eqn:Huser; [| discriminate H].
      injection H as <- <-. apply admin_in_good_standing in Huser.
      repeat split. right. split; [reflexivity |]. now exists config, user.
  - intros [-> [-> [[info [-> Hinfo]] | [-> [config [user [-> [Hfind Huser]]]]]]]]; cbn [bind].
    + apply admin_in_good_standing in Hinfo. now rewrite Hinfo.
    + rewrite Hfind. apply admin_in_good_standing in Huser. now rewrite Huser.
Qed.

(** X9.  Who passes [checkAdminPermission]: outside the localstorage mode, a
    logged-in user whose name is [USERNAME] passes as owner, and any other
    logged-in user passes as admin exactly when the store has the user as an
    admin who is not banned or, the store not knowing the user, the first
    entry of that name in the configuration is an admin who is not banned.
    Nobody else passes, and the name granted is the name of the cookie. *)
Theorem checkAdminPermission_granted (username : string) (granted : AdminRole) :
  snd (checkAdminPermission NEXT_PUBLIC_STORAGE_TYPE USERNAME authInfo getUserInfoV2 getConfig)
  = AdminGranted username granted
  <-> storageType NEXT_PUBLIC_STORAGE_TYPE <> "localstorage"
      /\ logged_in authInfo = Some username
      /\ ((granted = owner /\ same_string username USERNAME = true)
          \/ (granted = admin /\ same_string username USERNAME = false
              /\ listed_admin getUserInfoV2 getConfig username)).
Proof.
  unfold checkAdminPermission.
  destruct (String.eqb_spec (storageType NEXT_PUBLIC_STORAGE_TYPE) "localstorage")
    as [Hlocal | Hlocal].
  { split; [discriminate | intros [H _]; contradiction]. }
  destruct (logged_in authInfo) as [name |].
  2: { split; [discriminate | intros [_ [H _]]; discriminate H]. }
  destruct (same_string name USERNAME) eqn:Howner.
  - cbn [snd]. split.
    + intro H. injection H as <- <-. split; [exact Hlocal |]. split; [reflexivity |]. now left.
    + intros [_ [H [[-> _] | [_ [Hnot _]]]]]; injection H as <-; [reflexivity |].
      rewrite Howner in Hnot. discriminate Hnot.
  - destruct (lookup_admin getUserInfoV2 getConfig name) as [permission | e] eqn:Hlookup.
    + cbn [snd]. split.
      * intros ->. apply lookup_admin_granted in Hlookup. destruct Hlookup as [-> [-> Hlisted]].
        split; [exact Hlocal |]. split; [reflexivity |]. right. now repeat split.
      * intros [_ [H [[_ Hyes] | [-> [_ Hlisted]]]]]; injection H as ->.
        -- rewrite Howner in Hyes. discriminate Hyes.
        -- assert (lookup_admin getUserInfoV2 getConfig username
                   = Normal (AdminGranted username admin)) as Hgranted
             by now apply lookup_admin_granted.
           rewrite Hgranted in Hlookup. now injection Hlookup as <-.
    + cbn [console_error snd]. split; [discriminate |].
      intros [_ [H [[_ Hyes] | [-> [_ Hlisted]]]]]; injection H as ->.
      * rewrite Howner in Hyes. discriminate Hyes.
      * assert (lookup_admin getUserInfoV2 getConfig username
                = Normal (AdminGranted username admin)) as Hgranted
          by now apply lookup_admin_granted.
        rewrite Hgranted in Hlookup. discriminate Hlookup.
Qed.

(** X10.  The two checks agree on the owner: outside the localstorage mode
    [checkOwnerPermission] passes a user exactly when [checkAdminPermission]
    passes that user as owner, whatever the store and the configuration
    answer or throw.  In the localstorage mode [checkAdminPermission]
    refuses everybody with 400, the owner included, while
    [checkOwnerPermission] does not look at the mode. *)
Theorem owner_and_admin_checks_agree (username : string) :
  (storageType NEXT_PUBLIC_STORAGE_TYPE <> "localstorage" ->
   (checkOwnerPermission USERNAME authInfo = OwnerGranted username
    <-> snd (checkAdminPermission NEXT_PUBLIC_STORAGE_TYPE USERNAME authInfo
               getUserInfoV2 getConfig)
        = AdminGranted username owner))
  /\ (storageType NEXT_PUBLIC_STORAGE_TYPE = "localstorage" ->
      checkAdminPermission NEXT_PUBLIC_STORAGE_TYPE USERNAME authInfo getUserInfoV2 getConfig
      = ([], AdminDenied (refusal 400 "不支持本地存储进行管理员操作")))
  /\ (checkOwnerPermission USERNAME authInfo = OwnerGranted username
      <-> logged_in authInfo = Some username /\ same_string username USERNAME = true).
Proof.
  assert (checkOwnerPermission USERNAME authInfo = OwnerGranted username
          <-> logged_in authInfo = Some username /\ same_string username USERNAME = true)
    as Howner.
  { unfold checkOwnerPermission. destruct (logged_in authInfo) as [name |].
    - destruct (same_string name USERNAME) eqn:Hname; split.
      + intro H. injection H as <-. now split.
      + now intros [H _]; injection H as <-.
      + discriminate.
      + intros [H Hyes]. injection H as <-. rewrite Hname in Hyes. discriminate Hyes.
    - split; [discriminate | intros [H _]; discriminate H]. }
  split; [| split; [| exact Howner]].
  - intro Hmode. rewrite Howner, checkAdminPermission_granted. split.
    + intros [Hlogin Hname]. split; [exact Hmode |]. split; [exact Hlogin |]. now left.
    + intros [_ [Hlogin [[_ Hname] | [Hadmin _]]]]; [now split | discriminate Hadmin].
  - intro Hmode. unfold checkAdminPermission. now rewrite Hmode.
Qed.

(** X11.  The store decides alone on a user it knows: for a logged-in user
    who is not the owner and of whom the store has an entry, the answer is
    the admin grant when the entry is an admin who is not banned, and the
    403 refusal otherwise, whatever the configuration holds, even an admin
    entry of that name, and even if loading it would throw. *)
Theorem store_entry_decides (username : string) (info : UserInfo) :
  storageType NEXT_PUBLIC_STORAGE_TYPE <> "localstorage" ->
  logged_in authInfo = Some username ->
  same_string username USERNAME = false ->
  getUserInfoV2 username = Normal (Some info) ->
  checkAdminPermission NEXT_PUBLIC_STORAGE_TYPE USERNAME authInfo getUserInfoV2 getConfig
  = ([], if (role info =? "admin") && negb (banned info)
         then AdminGranted username admin
         else AdminDenied (refusal 403 "权限不足")).
Proof.
  intros Hmode Hlogin Hname Hinfo. unfold checkAdminPermission.
  apply String.eqb_neq in Hmode. rewrite Hmode, Hlogin, Hname.
  unfold lookup_admin. rewrite Hinfo. cbn [bind].
  now destruct ((role info =? "admin") && negb (banned info)).
Qed.

End AdminChecks.

(* ================================================================== *)
(** ** Further properties of the parser and of its handler *)
(* ================================================================== *)

Section ParserEdges.

Context {platform : Platform}.

(** X12.  The handler and [fetchSubscription] treat a URL alike.  For a
    request whose [url] is a non-empty string: when [fetch] throws, so does
    [fetchSubscription], and the handler answers 500 with that error; when
    [fetchSubscription] returns a document, the handler goes on to parse this
    very document; when it throws on a response that is not 2xx, or on a
    body that is not JSON and not declared as JSON, the handler answers 400
    with the message of the error thrown; and when it throws on a body
    declared as JSON, the handler answers 500 with that error. *)
Theorem POST_follows_fetchSubscription (fetch : JsVal -> completion FetchResponse)
  (request : NextRequest) (url : string) :
  request_url request = Normal (JStr url) -> url <> "" ->
  match fetch (JStr url) with
  | Throw e =>
      fetchSubscription fetch url = Throw e
      /\ snd (POST fetch request) = internal_error_response e
  | Normal response =>
      match fetchSubscription fetch url with
      | Normal subscriptionData =>
          POST_try fetch request
          = (sites <- parsedSites subscriptionData ;;
             lives <- parsedLives subscriptionData ;;
             Normal (success_response sites lives))
      | Throw e =>
          if ok response && string_includes "application/json" (contentType response)
          then snd (POST fetch request) = internal_error_response e
          else POST fetch request
               = ([], mkResponse 400 (JObj [("error", JStr (err_message e))]))
      end
  end.
Proof.
  intros Hurl Hne. unfold POST, POST_try, fetchSubscription. rewrite Hurl. cbn [bind].
  assert (truthy (JStr url) = true) as -> by (cbn; now destruct (String.eqb_spec url "")).
  cbn [negb]. destruct (fetch (JStr url)) as [response | e]; cbn [bind].
  - destruct (ok response); cbn [negb andb]; [| reflexivity].
    destruct (string_includes "application/json" (contentType response)).
    + destruct (JSON_parse (body response)) as [subscriptionData | e]; cbn [bind];
        reflexivity.
    + destruct (JSON_parse (body response)) as [subscriptionData | e];
        cbn [bind try_catch]; reflexivity.
  - split; reflexivity.
Qed.

Lemma parsedSites_reads_sites (document document' : JsVal) :
  get document "sites" = get document' "sites" -> parsedSites document = parsedSites document'.
Proof.
  intro H. unfold parsedSites. now rewrite H.
Qed.

Lemma get_sites (members : list (string * JsVal)) (sites : list JsVal) :
  own_property members "sites" = Some (JArr sites) ->
  get (JObj members) "sites" = get (sites_document sites) "sites".
Proof.
  intro H. cbn [get]. rewrite H. reflexivity.
Qed.

(** X13.  Unwrapping falls back silently: for a record whose [api] is a
    string (or is absent or falsy, which counts as the empty string), the
    effective [api] is always computed and is a string; it is the raw string
    itself when the string has no proxy marker, when [new URL] throws, when
    the URL has no non-empty [api] parameter and when [decodeURIComponent]
    throws. *)
Theorem effective_api_falls_back (site : JsVal) (raw : string) :
  js_or (field site "api") (JStr "") = JStr raw ->
  (exists apiUrl, effective_api site = Normal (JStr apiUrl))
  /\ (string_includes PROXY_MARKER raw = false -> effective_api site = Normal (JStr raw))
  /\ (forall e, new_URL (JStr raw) = Throw e -> effective_api site = Normal (JStr raw))
  /\ (forall urlObj, new_URL (JStr raw) = Normal urlObj ->
        truthy_param (searchParams_get urlObj "api") = false ->
        effective_api site = Normal (JStr raw))
  /\ (forall urlObj e, new_URL (JStr raw) = Normal urlObj ->
        decodeURIComponent (string_value (searchParams_get urlObj "api")) = Throw e ->
        effective_api site = Normal (JStr raw)).
Proof.
  intro Hraw. unfold effective_api. rewrite Hraw. cbn [includes bind].
  destruct (string_includes PROXY_MARKER raw).
  - destruct (new_URL (JStr raw)) as [urlObj | e0] eqn:Hurl; cbn [bind try_catch].
    + destruct (truthy_param (searchParams_get urlObj "api")) eqn:Hparam.
      * destruct (decodeURIComponent (string_value (searchParams_get urlObj "api")))
          as [decoded | e1] eqn:Hdecode; cbn [bind].
        -- split; [now exists decoded |]. split; [discriminate |]. split; [discriminate |].
           split.
           ++ intros u Hu Hfalse. injection Hu as <-. rewrite Hparam in Hfalse.
              discriminate Hfalse.
           ++ intros u e Hu He. injection Hu as <-. rewrite Hdecode in He. discriminate He.
        -- split; [now exists raw |]. repeat split; reflexivity.
      * split; [now exists raw |]. repeat split; reflexivity.
    + split; [now exists raw |]. repeat split; reflexivity.
  - split; [now exists raw |]. repeat split; reflexivity.
Qed.

Lemma effective_api_string (site : JsVal) :
  (exists raw, js_or (field site "api") (JStr "") = JStr raw) ->
  exists apiUrl, effective_api site = Normal apiUrl.
Proof.
  intros [raw Hraw]. destruct (effective_api_falls_back site raw Hraw) as [[apiUrl H] _].
  now exists (JStr apiUrl).
Qed.

Lemma array_map_completes {A B : Type} (f : A -> completion B) (l : list A) :
  Forall (fun x => exists y, f x = Normal y) l -> exists out, array_map f l = Normal out.
Proof.
  induction 1 as [| x l [y Hy] _ [ys IH]]; [now exists [] |].
  exists (y :: ys). cbn [array_map]. rewrite Hy, IH. reflexivity.
Qed.

(** X14.  A document that keeps to the [TVBoxSite] interface never makes
    the site pipeline fail: when every element of [sites] is a value other
    than [null] whose [api] is a string (or is absent or falsy), the pipeline
    completes, whatever [new URL], [searchParams.get] and
    [decodeURIComponent] do. *)
Theorem parsedSites_completes_on_string_apis (members : list (string * JsVal))
  (sites : list JsVal) :
  own_property members "sites" = Some (JArr sites) ->
  Forall (fun site => nullish site = false
                      /\ exists raw, js_or (field site "api") (JStr "") = JStr raw) sites ->
  exists out, parsedSites (JObj members) = Normal out.
Proof.
  intros Hmember Hsites. rewrite (parsedSites_reads_sites _ _ (get_sites _ _ Hmember)).
  destruct (array_map_completes
              (fun site => apiUrl <- effective_api site ;; Normal (to_site site apiUrl))
              (filter type_is_one sites)) as [mapped Hmapped].
  - apply Forall_forall. intros site Hin. apply filter_In in Hin. destruct Hin as [Hin _].
    rewrite Forall_forall in Hsites. destruct (Hsites site Hin) as [_ Hraw].
    destruct (effective_api_string site Hraw) as [apiUrl HapiUrl].
    exists (to_site site apiUrl). now rewrite HapiUrl.
  - exists (filter site_kept mapped). apply parsedSites_completes; [| exact Hmapped].
    eapply Forall_impl; [| exact Hsites]. now intros site [H _].
Qed.

Lemma array_filter_Throw {A : Type} (p : A -> completion bool) (e : JsError) (l : list A) :
  Forall (fun x => (exists b, p x = Normal b) \/ p x = Throw e) l ->
  Exists (fun x => p x = Throw e) l ->
  array_filter p l = Throw e.
Proof.
  induction 1 as [| x l Hx Hl IH]; intro Hex; [inversion Hex |].
  cbn [array_filter]. destruct Hx as [[b Hb] | Hthrow].
  - rewrite Hb. cbn [bind]. inversion Hex as [? ? Hhere | ? ? Hlater]; subst.
    + rewrite Hb in Hhere. discriminate Hhere.
    + now rewrite (IH Hlater).
  - now rewrite Hthrow.
Qed.

Lemma array_map_Throw {A B : Type} (f : A -> completion B) (e : JsError) (l : list A) :
  Forall (fun x => (exists y, f x = Normal y) \/ f x = Throw e) l ->
  Exists (fun x => f x = Throw e) l ->
  array_map f l = Throw e.
Proof.
  induction 1 as [| x l Hx Hl IH]; intro Hex; [inversion Hex |].
  cbn [array_map]. destruct Hx as [[y Hy] | Hthrow].
  - rewrite Hy. cbn [bind]. inversion Hex as [? ? Hhere | ? ? Hlater]; subst.
    + rewrite Hy in Hhere. discriminate Hhere.
    + now rewrite (IH Hlater).
  - now rewrite Hthrow.
Qed.

Lemma get_nullish (v : JsVal) (k : string) : nullish v = true -> get v k = Throw (cannot_read k).
Proof.
  destruct v; try discriminate; reflexivity.
Qed.

(** X15.  One [null] among the entries fails the whole parse: when the
    array [sites] holds a [null], the site pipeline throws the [TypeError] of
    reading [type] of [null], and when the array [lives] holds one, the live
    pipeline throws that of reading [name], however many well-formed entries
    the arrays hold besides. *)
Theorem null_entry_fails_parse (members : list (string * JsVal)) (entries : list JsVal) :
  Exists (fun entry => nullish entry = true) entries ->
  (own_property members "sites" = Some (JArr entries) ->
   parsedSites (JObj members) = Throw (cannot_read "type"))
  /\ (own_property members "lives" = Some (JArr entries) ->
      parsedLives (JObj members) = Throw (cannot_read "name")).
Proof.
  intro Hnull. split; intro Hmember.
  - unfold parsedSites. cbn [get bind]. rewrite Hmember. cbn [js_or truthy as_array bind].
    rewrite (array_filter_Throw _ (cannot_read "type")); [reflexivity | |].
    + apply Forall_forall. intros x _. destruct (nullish x) eqn:Hx.
      * right. now rewrite (get_nullish x _ Hx).
      * left. rewrite (get_field x _ Hx). cbn [bind]. now eexists.
    + eapply Exists_impl; [| exact Hnull]. intros x Hx. cbn beta.
      now rewrite (get_nullish x _ Hx).
  - unfold parsedLives. cbn [get bind]. rewrite Hmember. cbn [js_or truthy as_array bind].
    rewrite (array_map_Throw _ (cannot_read "name")); [reflexivity | |].
    + apply Forall_forall. intros x _. destruct (nullish x) eqn:Hx.
      * right. now rewrite (get_nullish x _ Hx).
      * left. rewrite !(get_field x _ Hx). cbn [bind]. now eexists.
    + eapply Exists_impl; [| exact Hnull]. intros x Hx. cbn beta.
      now rewrite (get_nullish x _ Hx).
Qed.

Lemma site_filter_completes (sites : list JsVal) :
  Forall (fun site => nullish site = false) sites ->
  array_filter (fun site => t <- get site "type" ;; Normal (strict_eq_one t)) sites
  = Normal (filter type_is_one sites).
Proof.
  induction 1 as [| x l Hx _ IH]; [reflexivity |].
  cbn [array_filter filter]. rewrite (get_field x _ Hx), IH. cbn [bind].
  unfold type_is_one. now destruct (strict_eq_one (field x "type")).
Qed.

(** X16.  One record of type 1 whose [api] is truthy but neither a string
    nor an array (a number, [true], an object) fails the whole parse: on a
    document whose [sites] are values other than [null] and hold such a
    record, the site pipeline throws the [TypeError] of calling [includes],
    however many well-formed records there are besides. *)
Theorem api_without_includes_fails_parse (members : list (string * JsVal))
  (sites : list JsVal) :
  own_property members "sites" = Some (JArr sites) ->
  Forall (fun site => nullish site = false) sites ->
  Exists (fun site => api_without_includes site = true) sites ->
  parsedSites (JObj members) = Throw (not_a_function "includes").
Proof.
  intros Hmember Hsites Hbad.
  unfold parsedSites. cbn [get bind]. rewrite Hmember. cbn [js_or truthy as_array bind].
  rewrite (site_filter_completes sites Hsites). cbn [bind].
  rewrite (array_map_Throw _ (not_a_function "includes")); [reflexivity | |].
  - apply Forall_forall. intros x Hx. apply filter_In in Hx. destruct Hx as [Hx _].
    rewrite Forall_forall in Hsites. specialize (Hsites x Hx). cbn beta.
    rewrite !(get_field x _ Hsites). cbn [bind].
    destruct (includes (js_or (field x "api") (JStr "")) PROXY_MARKER) as [proxied | e] eqn:Hinc.
    + left. cbn [bind].
      destruct (if proxied
                then try_catch
                       (urlObj <- new_URL (js_or (field x "api") (JStr "")) ;;
                        (if truthy_param (searchParams_get urlObj "api")
                         then decoded <- decodeURIComponent
                                           (string_value (searchParams_get urlObj "api")) ;;
                              Normal (JStr decoded)
                         else Normal (js_or (field x "api") (JStr ""))))
                       (fun _ => Normal (js_or (field x "api") (JStr "")))
                else Normal (js_or (field x "api") (JStr ""))) as [apiUrl | e] eqn:HapiUrl.
      * cbn [bind]. now eexists.
      * exfalso. destruct proxied; [| discriminate HapiUrl].
        destruct (new_URL (js_or (field x "api") (JStr ""))) as [urlObj |];
          cbn [bind try_catch] in HapiUrl; [| discriminate HapiUrl].
        destruct (truthy_param (searchParams_get urlObj "api")); [| discriminate HapiUrl].
        destruct (decodeURIComponent (string_value (searchParams_get urlObj "api")));
          discriminate HapiUrl.
    + right. cbn [bind]. f_equal. unfold js_or in Hinc.
      destruct (field x "api") as [| | [] | f | s | items | ms]; cbn in Hinc;
        try discriminate Hinc; try (now injection Hinc as <-).
      * destruct (negb (PrimFloat.eqb f 0) && PrimFloat.eqb f f); cbn in Hinc;
          [now injection Hinc as <- | discriminate Hinc].
      * destruct (negb (s =? "")); discriminate Hinc.
  - apply Exists_exists in Hbad. destruct Hbad as [x [Hx Hbad]].
    apply Exists_exists. exists x. unfold api_without_includes in Hbad.
    apply andb_true_iff in Hbad. destruct Hbad as [Hbad Hno].
    apply andb_true_iff in Hbad. destruct Hbad as [Htype Htruthy].
    split; [apply filter_In; now split |].
    rewrite Forall_forall in Hsites. specialize (Hsites x Hx). cbn beta.
    rewrite !(get_field x _ Hsites). cbn [bind]. unfold js_or. rewrite Htruthy.
    destruct (field x "api"); try discriminate Hno; try discriminate Htruthy; reflexivity.
Qed.

End ParserEdges.

(* ================================================================== *)
(** ** [isLocalNetwork] on dotted addresses *)
(* ================================================================== *)

Lemma isLocalNetwork_prefixes (hostname : string) :
  isLocalNetwork hostname = true <->
  hostname = "localhost" \/ hostname = "127.0.0.1"
  \/ (exists rest, hostname = "192.168." ++ rest)
  \/ (exists rest, hostname = "10." ++ rest)
  \/ (exists n rest, (16 <= n <= 31)%nat /\ hostname = "172." ++ two_digits n ++ "." ++ rest).
Proof.
  unfold isLocalNetwork.
  destruct (String.eqb_spec hostname "localhost") as [-> | Hlocalhost];
    [split; [now left | reflexivity] |].
  destruct (String.eqb_spec hostname "127.0.0.1") as [-> | Hloopback];
    [split; [right; now left | reflexivity] |].
  cbn [orb localPatterns existsb].
  rewrite !orb_true_iff, !regex_test_lit, regex_test_private_172. split.
  - intros [H | [H | [H | H]]]; [| | | discriminate H]; tauto.
  - intros [H | [H | [H | [H | H]]]]; try contradiction; tauto.
Qed.

Lemma decimal_facts (n : nat) :
  (n < 256)%nat ->
  all_chars is_digit (decimal n) = true /\ decimal n <> ""
  /\ decimal_value (decimal n) = Some n.
Proof.
  intro Hn.
  assert (forallb decimal_checked (seq 0 256) = true) as Hall by (vm_compute; reflexivity).
  rewrite forallb_forall in Hall. specialize (Hall n). 
  assert (In n (seq 0 256)) as Hin by (apply in_seq; lia).
  specialize (Hall Hin). unfold decimal_checked in Hall.
  apply andb_true_iff in Hall. destruct Hall as [Hall Hvalue].
  apply andb_true_iff in Hall. destruct Hall as [Hdigits Hne].
  split; [exact Hdigits |]. split.
  - intro Hempty. rewrite Hempty in Hne. discriminate Hne.
  - destruct (decimal_value (decimal n)) as [m |]; [| discriminate Hvalue].
    apply Nat.eqb_eq in Hvalue. now subst m.
Qed.

(** Two texts that start with digits up to a dot agree on the digits and on
    what follows the dot. *)
Lemma dot_split (x y t u : string) :
  all_chars is_digit x = true -> all_chars is_digit y = true ->
  x ++ "." ++ t = y ++ "." ++ u -> x = y /\ t = u.
Proof.
  revert y. induction x as [| c x IH]; intros [| c' y] Hx Hy H; cbn in *.
  - injection H as ->. now split.
  - injection H as <- _. discriminate Hy.
  - injection H as -> _. discriminate Hx.
  - injection H as -> H. apply andb_true_iff in Hx, Hy.
    destruct (IH y (proj2 Hx) (proj2 Hy) H) as [-> ->]. now split.
Qed.

Lemma decimal_is (n : nat) (text : string) (m : nat) :
  (n < 256)%nat -> decimal n = text -> decimal_value text = Some m -> n = m.
Proof.
  intros Hn <- Hm. destruct (decimal_facts n Hn) as [_ [_ Hvalue]].
  rewrite Hvalue in Hm. now injection Hm.
Qed.

Lemma two_digits_facts (n : nat) :
  (16 <= n <= 31)%nat ->
  all_chars is_digit (two_digits n) = true /\ two_digits n = decimal n.
Proof.
  intro Hn.
  assert (n = 16 \/ n = 17 \/ n = 18 \/ n = 19 \/ n = 20 \/ n = 21 \/ n = 22 \/ n = 23
          \/ n = 24 \/ n = 25 \/ n = 26 \/ n = 27 \/ n = 28 \/ n = 29 \/ n = 30 \/ n = 31)%nat
    as Hcases by lia.
  repeat (destruct Hcases as [-> | Hcases]); try subst n; split; reflexivity.
Qed.

(** X17.  On the dotted form of an address [a.b.c.d] with octets below 256,
    [isLocalNetwork] answers [true] exactly for 10.0.0.0/8, 192.168.0.0/16,
    172.16.0.0/12 and the single address 127.0.0.1: the rest of 127.0.0.0/8
    and the link-local range 169.254.0.0/16 are not local for it. *)
Theorem isLocalNetwork_dotted (a b c d : nat) :
  (a < 256)%nat -> (b < 256)%nat -> (c < 256)%nat -> (d < 256)%nat ->
  isLocalNetwork (dotted a b c d) = true <->
  a = 10%nat \/ (a = 192%nat /\ b = 168%nat) \/ (a = 172%nat /\ (16 <= b <= 31)%nat)
  \/ (a = 127%nat /\ b = 0%nat /\ c = 0%nat /\ d = 1%nat).
Proof.
  intros Ha Hb Hc Hd.
  destruct (decimal_facts a Ha) as [Hda [Hna _]].
  destruct (decimal_facts b Hb) as [Hdb _].
  destruct (decimal_facts c Hc) as [Hdc _].
  rewrite isLocalNetwork_prefixes. unfold dotted. split.
  - intros [H | [H | [[rest H] | [[rest H] | [n [rest [Hn H]]]]]]].
    + exfalso. destruct (decimal a) as [| x s]; [now apply Hna |].
      cbn in H. injection H as -> _. discriminate Hda.
    + right; right; right.
      change "127.0.0.1" with ("127" ++ "." ++ "0" ++ "." ++ "0" ++ "." ++ "1") in H.
      apply dot_split in H; [| assumption | reflexivity]. destruct H as [H127 H].
      apply dot_split in H; [| assumption | reflexivity]. destruct H as [H0 H].
      apply dot_split in H; [| assumption | reflexivity]. destruct H as [H0' H1].
      repeat split; eapply decimal_is; try eassumption; reflexivity.
    + right; left.
      change ("192.168." ++ rest) with ("192" ++ "." ++ "168" ++ "." ++ rest) in H.
      apply dot_split in H; [| assumption | reflexivity]. destruct H as [H192 H].
      apply dot_split in H; [| assumption | reflexivity]. destruct H as [H168 _].
      split; eapply decimal_is; try eassumption; reflexivity.
    + left. change ("10." ++ rest) with ("10" ++ "." ++ rest) in H.
      apply dot_split in H; [| assumption | reflexivity]. destruct H as [H10 _].
      eapply decimal_is; try eassumption; reflexivity.
    + right; right; left. destruct (two_digits_facts n Hn) as [Hdn Heq].
      change ("172." ++ two_digits n ++ "." ++ rest)
        with ("172" ++ "." ++ two_digits n ++ "." ++ rest) in H.
      apply dot_split in H; [| assumption | reflexivity]. destruct H as [H172 H].
      apply dot_split in H; [| assumption | assumption]. destruct H as [Hbn _].
      split; [eapply decimal_is; try eassumption; reflexivity |].
      assert (b = n) as ->; [| exact Hn].
      eapply (decimal_is b (two_digits n) n); [assumption | exact Hbn |].
      rewrite Heq. apply decimal_facts. lia.
  - intros [-> | [[-> ->] | [[-> Hn] | [-> [-> [-> ->]]]]]].
    + right; right; right; left. now eexists.
    + right; right; left. now eexists.
    + right; right; right; right. exists b. eexists. split; [exact Hn |].
      destruct (two_digits_facts b Hn) as [_ ->]. reflexivity.
    + right; now left.
Qed.

(* ================================================================== *)
(** ** The handler's answers *)
(* ================================================================== *)

(** X18.  Every 200 answer of the parse-subscription handler is a success
    answer whose sites all have a non-empty [name] and [api] and whose live
    entries all have a non-empty [name] and [url]; every other answer is a
    400 or a 500. *)
Theorem POST_success_entries {platform : Platform} (fetch : JsVal -> completion FetchResponse)
  (request : NextRequest) :
  (response_status (snd (POST fetch request)) = 200%Z ->
   exists sites lives,
     snd (POST fetch request) = success_response sites lives
     /\ Forall site_nonempty sites /\ Forall live_nonempty lives)
  /\ (response_status (snd (POST fetch request)) = 200%Z
      \/ response_status (snd (POST fetch request)) = 400%Z
      \/ response_status (snd (POST fetch request)) = 500%Z).
Proof.
  assert (forall data r,
             (sites <- parsedSites data ;; lives <- parsedLives data ;;
              Normal (success_response sites lives)) = Normal r ->
             exists sites lives,
               r = success_response sites lives
               /\ Forall site_nonempty sites /\ Forall live_nonempty lives) as Hparse.
  { intros data r H. apply bind_Normal in H. destruct H as [sites [Hsites H]].
    apply bind_Normal in H. destruct H as [lives [Hlives H]]. injection H as <-.
    exists sites, lives. split; [reflexivity |]. split.
    - apply parsedSites_stages in Hsites. destruct Hsites as [mapped [_ ->]].
      apply Forall_forall. intros site Hin. apply filter_In in Hin.
      now apply site_kept_nonempty.
    - apply parsedLives_stages in Hlives. subst lives.
      apply Forall_forall. intros live Hin. apply filter_In in Hin.
      now apply live_kept_nonempty. }
  unfold POST. destruct (POST_try fetch request) as [r | e] eqn:Htry.
  2: { cbn [console_error snd]. split; [discriminate | right; now right]. }
  cbn [snd]. unfold POST_try in Htry.
  apply bind_Normal in Htry. destruct Htry as [url [_ Htry]].
  destruct (negb (truthy url)).
  { injection Htry as <-. split; [discriminate | right; now left]. }
  apply bind_Normal in Htry. destruct Htry as [response [_ Htry]].
  destruct (negb (ok response)).
  { injection Htry as <-. split; [discriminate | right; now left]. }
  apply bind_Normal in Htry. destruct Htry as [[data | early] [Hparsed Htry]].
  - destruct (Hparse data r Htry) as [sites [lives [-> Hentries]]].
    split; [intros _; now exists sites, lives | now left].
  - injection Htry as <-.
    destruct (string_includes "application/json" (contentType response)).
    + apply bind_Normal in Hparsed. destruct Hparsed as [data [_ Hparsed]]. discriminate Hparsed.
    + destruct (JSON_parse (body response)); cbn [bind try_catch] in Hparsed;
        [discriminate Hparsed |].
      injection Hparsed as <-. split; [discriminate | right; now left].
Qed.

(* ================================================================== *)
(** ** Runs of the further properties on concrete inputs *)
(* ================================================================== *)

Lemma getLocalNetworkIP_external_IPv4_witness :
  exists name iface addr,
    In (name, iface) example_interfaces /\ In addr iface
    /\ family addr = "IPv4" /\ internal addr = false /\ address addr = "192.168.1.10".
Proof.
  apply (getLocalNetworkIP_external_IPv4 example_interfaces).
  repeat constructor; cbn; intuition discriminate.
Defined.

Lemma getLocalNetworkIP_priority_witness :
  exists before chosen after iface' addr',
    priorityOrder = (before ++ chosen :: after)%list
    /\ (forall n iface0, In n before -> interface_named example_interfaces n = Some iface0 ->
                         find external_IPv4 iface0 = None)
    /\ interface_named example_interfaces chosen = Some iface'
    /\ find external_IPv4 iface' = Some addr'
    /\ getLocalNetworkIP (NodeOS (Normal example_interfaces))
       = ([(LogLevel, found_message (address addr', chosen))], Some (address addr')).
Proof.
  apply (getLocalNetworkIP_priority example_interfaces "eth0"
           [mkAddress "fe80::1" "IPv6" false; mkAddress "192.168.1.10" "IPv4" false]
           (mkAddress "192.168.1.10" "IPv4" false)).
  - right; right; now left.
  - reflexivity.
  - reflexivity.
Defined.

Lemma getPublicIP_first_answer_witness :
  snd (getPublicIP fetch_second_answers) = Some (JStr "203.0.113.7")
  /\ getPublicIP fetch_second_answers = getPublicIP fetch_second_answers.
Proof.
  apply (getPublicIP_first_answer fetch_second_answers fetch_second_answers
           ["https://api.ipify.org?format=json"] "https://api.ip.sb/ip"
           ["https://ifconfig.me/ip"] plain_text_answer (JStr "203.0.113.7")).
  - reflexivity.
  - intros s [<- | []]. exact I.
  - reflexivity.
  - vm_compute. reflexivity.
  - reflexivity.
Defined.

Lemma recommendation_announces_best_witness :
  snd (getBestAccessURL (Server (Some "https://env.example")) (Some "https://caller.example")
         (Some 3000%float) (Some "https://db.example")) = Normal "https://env.example".
Proof.
  apply (recommendation_announces_best (Some "172.17.0.2") None (Some "https://env.example")
           (Some "https://db.example") (Some "https://caller.example") (Some 3000%float)
           "https://env.example").
  left. reflexivity.
Defined.

Lemma network_info_bestURL_witness :
  get (payload (route_response
                  (snd (NetworkInfoRoute.GET (Some (mkAuthInfo (Some "alice")))
                          (NodeOS (Normal example_interfaces)) fetch_second_answers
                          (Some "8080") None (Normal (Some "https://db.example"))
                          "http://192.168.1.10:8080")))) "bestURL"
  = Normal (JStr "https://db.example").
Proof.
  apply (network_info_bestURL (Some (mkAuthInfo (Some "alice")))
           (NodeOS (Normal example_interfaces)) fetch_second_answers
           (Some "8080") None (Some "https://db.example") "http://192.168.1.10:8080" "alice").
  reflexivity.
Defined.

Lemma subscribeUrl_parameters_witness :
  form_pairs (subscribe_query "a&b=c#d e" true) = [("token", "a&b=c#d e"); ("adFilter", "true")].
Proof.
  apply (subscribeUrl_parameters "https://tv.example" "a&b=c#d e" true). reflexivity.
Defined.

Lemma subscribe_link_base_witness :
  snd (SubscribeRoute.GET (Some (mkAuthInfo (Some "alice"))) (Some "true") (Some "s3cret")
         None None example_nextUrl "http://tv.example" (Normal None))
  = Normal (no_store
              (JObj [("enabled", JBool true);
                     ("url", JStr "http://client.example/api/tvbox/subscribe?token=s3cret&adFilter=true")])).
Proof.
  apply (subscribe_link_base (platform := reference_platform)
           (Some (mkAuthInfo (Some "alice"))) (Some "true") (Some "s3cret") None None
           example_nextUrl "http://tv.example" None "alice" "s3cret");
    try reflexivity.
  discriminate.
Defined.

Lemma store_entry_decides_witness :
  checkAdminPermission (Some "redis") (Some "root") (Some (mkAuthInfo (Some "alice")))
    store_with_banned_admin config_with_admin
  = ([], AdminDenied (refusal 403 "权限不足")).
Proof.
  apply (store_entry_decides (Some "redis") (Some "root") (Some (mkAuthInfo (Some "alice")))
           store_with_banned_admin config_with_admin "alice" (mkUser "alice" "admin" true));
    try reflexivity.
  discriminate.
Defined.

Lemma POST_follows_fetchSubscription_witness :
  POST fetch_html request_with_url
  = ([], mkResponse 400 (JObj [("error", JStr "订阅内容不是有效的JSON格式")])).
Proof.
  assert ("http://sub.example/tvbox.json" <> "") as Hurl by discriminate.
  exact (POST_follows_fetchSubscription fetch_html request_with_url
           "http://sub.example/tvbox.json" eq_refl Hurl).
Defined.

Lemma effective_api_falls_back_witness :
  effective_api (record [("api", JStr "/api/cms-proxy?api=http%3A%2F%2Freal.site%2Fapi")])
  = Normal (JStr "/api/cms-proxy?api=http%3A%2F%2Freal.site%2Fapi").
Proof.
  apply (proj1 (proj2 (proj2
           (effective_api_falls_back
              (record [("api", JStr "/api/cms-proxy?api=http%3A%2F%2Freal.site%2Fapi")])
              "/api/cms-proxy?api=http%3A%2F%2Freal.site%2Fapi" eq_refl)))
           invalid_url).
  reflexivity.
Defined.

Lemma parsedSites_completes_on_string_apis_witness :
  exists out, parsedSites (JObj [("sites", JArr [site_A; site_B; site_wrapped])]) = Normal out.
Proof.
  apply (parsedSites_completes_on_string_apis
           [("sites", JArr [site_A; site_B; site_wrapped])] [site_A; site_B; site_wrapped]).
  - reflexivity.
  - repeat constructor; eexists; reflexivity.
Defined.

Lemma null_entry_fails_parse_witness :
  parsedSites (JObj [("sites", JArr [site_A; JNull])]) = Throw (cannot_read "type").
Proof.
  apply (proj1 (null_entry_fails_parse [("sites", JArr [site_A; JNull])] [site_A; JNull]
                  (Exists_cons_tl site_A (Exists_cons_hd _ JNull [] eq_refl)))).
  reflexivity.
Defined.

Lemma api_without_includes_fails_parse_witness :
  parsedSites (JObj [("sites",
                      JArr [site_A; record [("type", JNum 1); ("name", JStr "N");
                                            ("api", JNum 8080)]])])
  = Throw (not_a_function "includes").
Proof.
  apply (api_without_includes_fails_parse
           [("sites", JArr [site_A; record [("type", JNum 1); ("name", JStr "N");
                                            ("api", JNum 8080)]])]
           [site_A; record [("type", JNum 1); ("name", JStr "N"); ("api", JNum 8080)]]).
  - reflexivity.
  - repeat constructor.
  - apply Exists_cons_tl, Exists_cons_hd. reflexivity.
Defined.

Lemma isLocalNetwork_dotted_witness :
  isLocalNetwork "127.0.0.2" = true <->
  127%nat = 10%nat \/ (127%nat = 192%nat /\ 0%nat = 168%nat)
  \/ (127%nat = 172%nat /\ (16 <= 0 <= 31)%nat)
  \/ (127%nat = 127%nat /\ 0%nat = 0%nat /\ 0%nat = 0%nat /\ 2%nat = 1%nat).
Proof.
  apply (isLocalNetwork_dotted 127 0 0 2); lia.
Defined.
